(** * antibodyKinetics: the observation-error kernel and the group posterior

    A shallow embedding of [src/posterior.cpp] (the three exported functions
    [obs_error], [obs_likelihood] and [posterior_func_group_cpp]) and the
    properties of the specification that concern them.

    Conventions of the embedding.
    - A C++ [int] is a [Z].  Signed overflow and the conversion of an
      out-of-range [double] to [int] are undefined in C++; the embedding
      covers the executions in which they do not occur.
    - A [double] stored in a vector is a finite real number, and arithmetic on
      finite values is exact (no rounding).  The results of the arithmetic
      that can leave the finite range (a division by zero, a logarithm of a
      non-positive number) are the IEEE 754 special values, see [xdouble].
    - An Rcpp vector is a [list]; a [NumericMatrix] is the list of its rows.
      Rcpp's accessors come in two kinds: [v(i)], [m(i,_)] and subsetting by
      an integer vector check their index and throw, while [v[i]], [m(i,j)]
      and subsetting by a [Range] do not check (an index out of range is
      undefined behaviour).  Both are written out, see [failure]. *)

From Stdlib Require Import Reals ZArith List Lia Lra Bool Permutation.
Import ListNotations.

Local Open Scope Z_scope.

(** ** Doubles *)

(** The values a [double] expression of the program can take. *)
Inductive xdouble : Type :=
| Fin (r : R)
| PInf
| NInf
| NaN.

(** The sign of a finite value, as a [comparison] with zero. *)
Definition Rsign (r : R) : comparison :=
  match total_order_T r 0 with
  | inleft (left _) => Lt
  | inleft (right _) => Eq
  | inright _ => Gt
  end.

(** The infinity of a given sign; a zero sign gives [NaN] (0 * inf, 0 / 0). *)
Definition signed_inf (c : comparison) : xdouble :=
  match c with Lt => NInf | Eq => NaN | Gt => PInf end.

Definition xadd (a b : xdouble) : xdouble :=
  match a, b with
  | NaN, _ | _, NaN => NaN
  | Fin x, Fin y => Fin (x + y)
  | PInf, NInf | NInf, PInf => NaN
  | PInf, _ | _, PInf => PInf
  | NInf, _ | _, NInf => NInf
  end.

Definition xopp (a : xdouble) : xdouble :=
  match a with
  | Fin x => Fin (- x)
  | PInf => NInf
  | NInf => PInf
  | NaN => NaN
  end.

Definition xsub (a b : xdouble) : xdouble := xadd a (xopp b).

Definition xmul (a b : xdouble) : xdouble :=
  match a, b with
  | NaN, _ | _, NaN => NaN
  | Fin x, Fin y => Fin (x * y)
  | Fin x, PInf | PInf, Fin x => signed_inf (Rsign x)
  | Fin x, NInf | NInf, Fin x => signed_inf (CompOpp (Rsign x))
  | PInf, PInf | NInf, NInf => PInf
  | PInf, NInf | NInf, PInf => NInf
  end.

(** Division.  The only divisor of the program that can be zero is
    [MAX_TITRE - 2.0], a difference of two equal values, which is [+0.0]:
    a finite value divided by zero takes the sign of the dividend. *)
Definition xdiv (a b : xdouble) : xdouble :=
  match a, b with
  | NaN, _ | _, NaN => NaN
  | Fin x, Fin y =>
      match Rsign y with
      | Eq => signed_inf (Rsign x)
      | _ => Fin (x / y)
      end
  | Fin _, (PInf | NInf) => Fin 0
  | PInf, Fin y => match Rsign y with Lt => NInf | _ => PInf end
  | NInf, Fin y => match Rsign y with Lt => PInf | _ => NInf end
  | (PInf | NInf), (PInf | NInf) => NaN
  end.

(** [log] of <cmath>: minus infinity at zero, NaN below it. *)
Definition xlog (a : xdouble) : xdouble :=
  match a with
  | Fin x =>
      match Rsign x with
      | Gt => Fin (ln x)
      | Eq => NInf
      | Lt => NaN
      end
  | PInf => PInf
  | NInf => NaN
  | NaN => NaN
  end.

Declare Scope xdouble_scope.
Delimit Scope xdouble_scope with X.
Bind Scope xdouble_scope with xdouble.
Infix "+" := xadd : xdouble_scope.
Infix "-" := xsub : xdouble_scope.
Infix "*" := xmul : xdouble_scope.
Infix "/" := xdiv : xdouble_scope.

(** A finite value, neither an infinity nor NaN. *)
Definition finite (a : xdouble) : Prop :=
  match a with Fin _ => True | _ => False end.

(** A probability: a finite value of the unit interval. *)
Definition is_probability (a : xdouble) : Prop :=
  match a with Fin p => (0 <= p <= 1)%R | _ => False end.

(** [floor] of <cmath> on a finite value, as an integer. *)
Definition Zfloor (x : R) : Z := up x - 1.

(** [floor] of <cmath>: the result is again a double. *)
Definition floor (x : R) : R := IZR (Zfloor x).

(** The conversion of a [double] to [int]: truncation toward zero. *)
Definition double_to_int (x : R) : Z :=
  if Rlt_dec x 0 then - Zfloor (- x) else Zfloor x.

(** ** [obs_error] *)

(** [double obs_error(int actual, int obs, double S, double EA, int MAX_TITRE)],
    lines 18-24.  The integer [MAX_TITRE] is promoted to [double] in
    [MAX_TITRE-2.0]. *)
Definition obs_error (actual obs : Z) (S EA : R) (MAX_TITRE : Z) : xdouble :=
  if (actual =? MAX_TITRE) && (obs =? MAX_TITRE) then
    (Fin S + Fin EA / Fin 2
     - (Fin 1 / (Fin (IZR MAX_TITRE) - Fin 2)) * (Fin 1 - Fin S - Fin EA))%X
  else if (actual =? 0) && (obs =? 0) then
    (Fin S + Fin EA / Fin 2
     - (Fin 1 / (Fin (IZR MAX_TITRE) - Fin 2)) * (Fin 1 - Fin S - Fin EA))%X
  else if actual =? obs then Fin S
  else if (actual =? obs + 1) || (actual =? obs - 1) then (Fin EA / Fin 2)%X
  else ((Fin 1 / (Fin (IZR MAX_TITRE) - Fin 2)) * (Fin 1 - Fin S - Fin EA))%X.

(** The kernel as the specification words it (section 4.2): the boundary
    bins first, then the exact match, then the adjacent bins, then the
    uniform residual. *)
Definition boundary_mass (S EA : R) (M : Z) : xdouble :=
  (Fin S + Fin EA / Fin 2
   - (Fin 1 / (Fin (IZR M) - Fin 2)) * (Fin 1 - Fin S - Fin EA))%X.

Definition residual_mass (S EA : R) (M : Z) : xdouble :=
  ((Fin 1 / (Fin (IZR M) - Fin 2)) * (Fin 1 - Fin S - Fin EA))%X.

Inductive observationProbability
  (believed observed : Z) (S EA : R) (M : Z) : xdouble -> Prop :=
| op_boundary :
    (believed = M /\ observed = M) \/ (believed = 0 /\ observed = 0) ->
    observationProbability believed observed S EA M (boundary_mass S EA M)
| op_exact :
    ~ ((believed = M /\ observed = M) \/ (believed = 0 /\ observed = 0)) ->
    believed = observed ->
    observationProbability believed observed S EA M (Fin S)
| op_adjacent :
    believed <> observed ->
    Z.abs (believed - observed) = 1 ->
    observationProbability believed observed S EA M (Fin EA / Fin 2)%X
| op_residual :
    believed <> observed ->
    Z.abs (believed - observed) <> 1 ->
    observationProbability believed observed S EA M (residual_mass S EA M).

(** The sum of a list of doubles, accumulated from the left as a loop does. *)
Definition xsum (l : list xdouble) : xdouble := fold_left xadd l (Fin 0).

(** The integers [0, 1, ..., n-1]. *)
Definition zseq (n : nat) : list Z := map Z.of_nat (seq 0 n).

(** The titre values [0 .. M] of the ordinal scale. *)
Definition titres (M : Z) : list Z := zseq (Z.to_nat (M + 1)).

(** ** Rcpp containers *)

(** How an evaluation can fail to return.  [RangeError] and
    [IndexOutOfBounds] are the exceptions Rcpp throws ([Range(a,b)] with
    [a > b]; a checked index out of range); [UndefinedBehaviour] is an
    unchecked access out of range; [OutOfFuel] is the model's own: the step
    budget of a loop was used up before the loop ended. *)
Inductive failure : Type :=
| RangeError
| IndexOutOfBounds
| UndefinedBehaviour
| OutOfFuel.

(** The result of an expression that can fail. *)
Inductive result (A : Type) : Type :=
| Ok (a : A)
| Err (e : failure).
Arguments Ok {A} a.
Arguments Err {A} e.

Definition rbind {A B : Type} (r : result A) (k : A -> result B) : result B :=
  match r with Ok a => k a | Err e => Err e end.

Notation "x <- r ;; k" := (rbind r (fun x => k))
  (at level 61, r at next level, right associativity).

(** The result of a statement on a state [St]: the state it ends in, or the
    failure that stopped it and the state at that point. *)
Inductive outcome (St : Type) : Type :=
| Done (s : St)
| Stop (e : failure) (s : St).
Arguments Done {St} s.
Arguments Stop {St} e s.

(** An expression inside a statement: its failure stops the statement in
    the state [s]. *)
Definition bindStop {A St : Type} (r : result A) (s : St)
  (k : A -> outcome St) : outcome St :=
  match r with Ok x => k x | Err e => Stop e s end.

Notation "x <-[ s ] r ;; k" := (bindStop r s (fun x => k))
  (at level 61, r at next level, right associativity).

(** The state an outcome ends in. *)
Definition final {St : Type} (o : outcome St) : St :=
  match o with Done s => s | Stop _ s => s end.

(** A loop over the elements of [l], stopped by the first failure. *)
Fixpoint foldM {A St : Type} (f : A -> St -> outcome St) (l : list A) (s : St)
  : outcome St :=
  match l with
  | [] => Done s
  | a :: l' =>
      match f a s with
      | Done s' => foldM f l' s'
      | Stop e s' => Stop e s'
      end
  end.

(** [f] on every element of a list, in order, stopped by the first failure. *)
Fixpoint mapM {A B : Type} (f : A -> result B) (l : list A) : result (list B) :=
  match l with
  | [] => Ok []
  | x :: l' =>
      y <- f x ;;
      ys <- mapM f l' ;;
      Ok (y :: ys)
  end.

(** The element at a C++ index, when the index is within the vector. *)
Definition elem {A : Type} (v : list A) (i : Z) : option A :=
  if i <? 0 then None else nth_error v (Z.to_nat i).

(** [v(i)] and [m(i,_)]: checked, throws [index_out_of_bounds]. *)
Definition checked {A : Type} (v : list A) (i : Z) : result A :=
  match elem v i with Some a => Ok a | None => Err IndexOutOfBounds end.

(** [v[i]]: not checked. *)
Definition unchecked {A : Type} (v : list A) (i : Z) : result A :=
  match elem v i with Some a => Ok a | None => Err UndefinedBehaviour end.

(** [v[Range(a,b)]], both ends included.  The constructor of [Range] throws
    when [a > b]; the elements are read without a check. *)
Definition subset_range {A : Type} (v : list A) (a b : Z) : result (list A) :=
  if a >? b then Err RangeError
  else if (a <? 0) || (Z.of_nat (length v) <=? b) then Err UndefinedBehaviour
  else Ok (firstn (Z.to_nat (b - a + 1)) (skipn (Z.to_nat a) v)).

(** [v[idx]] for an integer vector [idx]: every index is checked. *)
Fixpoint subset_indices {A : Type} (v : list A) (idx : list Z)
  : result (list A) :=
  match idx with
  | [] => Ok []
  | i :: idx' =>
      x <- checked v i ;;
      xs <- subset_indices v idx' ;;
      Ok (x :: xs)
  end.

(** The list [v] with its element at position [i] replaced by [x]. *)
Fixpoint set_nth {A : Type} (i : nat) (x : A) (v : list A) : list A :=
  match v, i with
  | [], _ => []
  | _ :: v', O => x :: v'
  | a :: v', S i' => a :: set_nth i' x v'
  end.

Definition NumericVector : Type := list R.
Definition IntegerVector : Type := list Z.
Definition NumericMatrix : Type := list (list R).

(** A [NumericVector] object is a handle on a vector that its holders
    share: an assignment through one handle is seen through every handle on
    the same vector.  The store maps a handle to the vector's contents. *)
Definition handle : Type := nat.
Definition store : Type := handle -> NumericVector.

Definition store_set (h : store) (v : handle) (x : NumericVector) : store :=
  fun w => if Nat.eqb w v then x else h w.

(** [v(i) = x] through the handle [v]. *)
Definition assign (h : store) (v : handle) (i : Z) (x : R) : result store :=
  _ <- checked (h v) i ;;
  Ok (store_set h v (set_nth (Z.to_nat i) x (h v))).

(** ** [obs_likelihood] *)

(** The body of the loop of lines 39-43, at index [i]: the state is the
    store and the local [ln].  A checked access that throws stops the loop
    in the state reached so far. *)
Definition obs_likelihood_body (y data params : handle) (MAX_TITRE : Z)
  (i : Z) (st : store * xdouble) : outcome (store * xdouble) :=
  let (h, ln) := st in
  yi <-[ (h, ln) ] checked (h y) i ;;
  h1 <-[ (h, ln) ] (if Rlt_dec yi 0 then assign h y i 0%R else Ok h) ;;
  yi1 <-[ (h1, ln) ] checked (h1 y) i ;;
  h2 <-[ (h1, ln) ] (if Rge_dec yi1 (IZR MAX_TITRE)
                     then assign h1 y i (IZR MAX_TITRE) else Ok h1) ;;
  yi2 <-[ (h2, ln) ] checked (h2 y) i ;;
  di <-[ (h2, ln) ] checked (h2 data) i ;;
  S <-[ (h2, ln) ] checked (h2 params) 0 ;;
  EA <-[ (h2, ln) ] checked (h2 params) 1 ;;
  Done (h2, (ln + xlog (obs_error (double_to_int (floor yi2))
                                  (double_to_int (floor di))
                                  S EA MAX_TITRE))%X).

(** [double obs_likelihood(NumericVector y, NumericVector data,
    NumericVector params)], lines 36-45.  The bound [y.length()] of the loop
    does not change: an assignment to [y(i)] keeps the length. *)
Definition obs_likelihood (y data params : handle) (h : store)
  : outcome (store * xdouble) :=
  match checked (h params) 2 with
  | Err e => Stop e (h, Fin 0)
  | Ok m =>
      let MAX_TITRE := double_to_int m in
      foldM (obs_likelihood_body y data params MAX_TITRE)
            (zseq (length (h y))) (h, Fin 0)
  end.

(** A call on three vectors of their own, as [posterior_func_group_cpp]
    makes it: the two matrix rows are copied into fresh vectors. *)
Definition fresh_store (y data params : NumericVector) : store :=
  fun w => match w with O => y | 1%nat => data | _ => params end.

Definition obs_likelihood_on (y data params : NumericVector)
  : outcome (store * xdouble) :=
  obs_likelihood 0%nat 1%nat 2%nat (fresh_store y data params).

(** The two assignments of lines 40-41 on one value. *)
Definition clamp (MAX_TITRE : Z) (v : R) : R :=
  let v1 := if Rlt_dec v 0 then 0%R else v in
  if Rge_dec v1 (IZR MAX_TITRE) then IZR MAX_TITRE else v1.

(** The term the loop adds at one position: the logarithm of the kernel at
    the believed value, clamped by the two assignments and floored, and the
    floored observed value. *)
Definition log_term (S EA : R) (MAX_TITRE : Z) (believed observed : R)
  : xdouble :=
  xlog (obs_error (Zfloor (clamp MAX_TITRE believed)) (Zfloor observed)
                  S EA MAX_TITRE).

(** The terms of the paired positions of two sequences. *)
Fixpoint log_terms (S EA : R) (MAX_TITRE : Z) (y data : list R)
  : list xdouble :=
  match y, data with
  | b :: y', o :: data' =>
      log_term S EA MAX_TITRE b o :: log_terms S EA MAX_TITRE y' data'
  | _, _ => []
  end.

(** A probability that is zero or negative. *)
Definition nonpositive (a : xdouble) : Prop :=
  match a with Fin p => (p <= 0)%R | NInf => True | _ => False end.

(** The two non-finite values a sum of logarithms takes when a term is the
    logarithm of a zero or negative probability. *)
Definition minus_infinity_or_nan (a : xdouble) : Prop := a = NInf \/ a = NaN.

(** The clamp as the specification words it (section 4.2): values below 0
    become 0, values at or above [MAX_TITRE] become [MAX_TITRE]. *)
Definition clampSpec (MAX_TITRE : Z) (v : R) : R :=
  if Rlt_dec v 0 then 0%R
  else if Rge_dec v (IZR MAX_TITRE) then IZR MAX_TITRE
  else v.

(** The sequence log-likelihood as the specification words it: for each
    paired position, clamp the believed value, floor both values, take the
    logarithm of the kernel, and sum. *)
Fixpoint specTerms (S EA : R) (MAX_TITRE : Z) (believed observed : list R)
  : list xdouble :=
  match believed, observed with
  | b :: believed', o :: observed' =>
      xlog (obs_error (Zfloor (clampSpec MAX_TITRE b)) (Zfloor o)
                      S EA MAX_TITRE)
      :: specTerms S EA MAX_TITRE believed' observed'
  | _, _ => []
  end.

Definition sequenceLogLikelihood (believed observed : list R) (S EA : R)
  (MAX_TITRE : Z) : xdouble :=
  xsum (specTerms S EA MAX_TITRE believed observed).

(** The value a call returns, when it returns. *)
Definition returned {St : Type} (o : outcome (St * xdouble)) : option xdouble :=
  match o with Done (_, v) => Some v | Stop _ _ => None end.

(** ** [posterior_func_group_cpp] *)

(** The arguments of [posterior_func_group_cpp], lines 76-84. *)
Record arguments : Type := mkArguments {
  pars : NumericVector;
  times : NumericVector;
  groups : IntegerVector;
  individuals : IntegerVector;
  strains : IntegerVector;
  exposure_types : IntegerVector;
  exposure_strains : IntegerVector;
  measured_strains : IntegerVector;
  exposure_orders : IntegerVector;
  exposure_primes : IntegerVector;
  exposure_indices : IntegerVector;
  cr_inds : IntegerVector;
  par_type_ind : IntegerVector;
  order_indices : IntegerVector;
  exposure_i_lengths : IntegerVector;
  par_lengths : IntegerVector;
  cr_lengths : IntegerVector;
  data : NumericMatrix
}.

(** The locals of the function that its loops update ([ln_acc] is the
    local [ln]).  [scored] is a ghost variable: the pairs (row of [results],
    row of [data]) of the scoring calls made so far, in order. *)
Record locals : Type := mkLocals {
  results : NumericMatrix;
  fullPars : NumericVector;
  ln_acc : xdouble;
  index_data : Z;
  index_model : Z;
  scored : list (Z * Z)
}.

(** [results(index_model, ii) += y[ii]] for every [ii < y.size()]: the
    first elements of the row receive [y]. *)
Fixpoint add_prefix (row y : list R) : list R :=
  match row, y with
  | r :: row', v :: y' => (r + v)%R :: add_prefix row' y'
  | _, _ => row
  end.

(** Lines 145-147.  The matrix access is not checked: a trajectory longer
    than a row writes outside the matrix. *)
Definition add_trajectory (m : NumericMatrix) (row : Z) (y : list R)
  : result NumericMatrix :=
  r <- unchecked m row ;;
  if (length y <=? length r)%nat
  then Ok (set_nth (Z.to_nat row) (add_prefix r y) m)
  else Err UndefinedBehaviour.

Section Posterior.

(** The trajectory solver of [model.h], outside this file: a function of
    the assembled parameters and the time grid. *)
Variable model_trajectory_cpp : NumericVector -> NumericVector -> NumericVector.

Variable a : arguments.

(** Lines 102-104: the exposures of group [i]. *)
Definition group_exposures (i : Z) : result (list Z) :=
  A <- unchecked (exposure_i_lengths a) i ;;
  B1 <- unchecked (exposure_i_lengths a) (i + 1) ;;
  let B := B1 - 1 in
  subset_range (exposure_indices a) A B.

(** Lines 117-139: the parameter vector of the exposure [e] (an element of
    [tmp_exposures]) for the measured strain [strain]. *)
Definition assemble_fullPars (strain e : Z) : result NumericVector :=
  t_i <- unchecked (pars a) e ;;
  o <- unchecked (exposure_orders a) e ;;
  let order := o - 1 in
  es <- unchecked (exposure_strains a) e ;;
  let exposure_strain := es - 1 in
  oi <- unchecked (order_indices a) order ;;
  mod_ <- unchecked (pars a) oi ;;
  ip <- unchecked (exposure_primes a) e ;;
  let isPrimed := IZR ip in
  cl <- unchecked (cr_lengths a) strain ;;
  ci <- unchecked (cr_inds a) (cl + exposure_strain) ;;
  cr <- unchecked (pars a) ci ;;
  ty <- unchecked (exposure_types a) e ;;
  let type := ty - 1 in
  A <- unchecked (par_lengths a) type ;;
  B1 <- unchecked (par_lengths a) (type + 1) ;;
  let B := B1 - 1 in
  idx <- subset_range (par_type_ind a) A B ;;
  kinetics <- subset_indices (pars a) idx ;;
  Ok (kinetics ++ [isPrimed; mod_; cr; t_i]).

(** The body of the loop over [k], lines 112-148. *)
Definition exposure_step (strain e : Z) (s : locals) : outcome locals :=
  match assemble_fullPars strain e with
  | Err err => Stop err s
  | Ok fp =>
      let y := model_trajectory_cpp fp (times a) in
      match add_trajectory (results s) (index_model s) y with
      | Err err => Stop err s
      | Ok res =>
          Done (mkLocals res fp (ln_acc s) (index_data s) (index_model s)
                         (scored s))
      end
  end.

(** One scoring call, line 153-154: [ln += obs_likelihood(...)] on copies of
    the two rows and on [fullPars], then [index_data++]. *)
Definition score_individual (s : locals) : outcome locals :=
  match checked (results s) (index_model s) with
  | Err err => Stop err s
  | Ok y =>
      match checked (data a) (index_data s) with
      | Err err => Stop err s
      | Ok d =>
          match obs_likelihood_on y d (fullPars s) with
          | Stop err _ => Stop err s
          | Done (_, v) =>
              Done (mkLocals (results s) (fullPars s) (ln_acc s + v)%X
                             (index_data s + 1) (index_model s)
                             (scored s ++ [(index_model s, index_data s)]))
          end
      end
  end.

(** The loop of lines 152-155,
    [for(int jj = 0; j < individuals[i]; ++jj)]: the guard reads [j], the
    counter of the enclosing loop, and the bound [individuals[i]]; the body
    changes neither.  The loop is not bounded by its own counter, so the
    model gives it a step budget. *)
Fixpoint scoring_loop (fuel : nat) (i j jj : Z) (s : locals) : outcome locals :=
  match fuel with
  | O => Stop OutOfFuel s
  | S fuel' =>
      match unchecked (individuals a) i with
      | Err err => Stop err s
      | Ok n =>
          if j <? n then
            match score_individual s with
            | Stop err s' => Stop err s'
            | Done s' => scoring_loop fuel' i j (jj + 1) s'
            end
          else Done s
      end
  end.

(** The body of the loop over [j], lines 107-157, for group [i] with its
    exposures [tmp_exposures]. *)
Definition strain_step (fuel : nat) (i : Z) (tmp_exposures : list Z) (j : Z)
  (s : locals) : outcome locals :=
  match unchecked (strains a) j with
  | Err err => Stop err s
  | Ok sj =>
      let strain := sj - 1 in
      match foldM (exposure_step strain) tmp_exposures s with
      | Stop err s1 => Stop err s1
      | Done s1 =>
          match scoring_loop fuel i j 0 s1 with
          | Stop err s2 => Stop err s2
          | Done s2 =>
              Done (mkLocals (results s2) (fullPars s2) (ln_acc s2)
                             (index_data s2) (index_model s2 + 1) (scored s2))
          end
      end
  end.

(** The body of the loop over [i], lines 98-158. *)
Definition group_step (fuel : nat) (i : Z) (s : locals) : outcome locals :=
  match unchecked (groups a) i with
  | Err err => Stop err s
  | Ok _ =>
      match group_exposures i with
      | Err err => Stop err s
      | Ok tmp_exposures =>
          foldM (strain_step fuel i tmp_exposures)
                (zseq (length (strains a))) s
      end
  end.

(** Lines 85-95: [results] is a zero matrix with a row per (group, strain)
    pair and a column per time. *)
Definition initial_locals : locals :=
  mkLocals (repeat (repeat 0%R (length (times a)))
                   (length (strains a) * length (groups a)))
           [] (Fin 0) 0 0 [].

(** The function, with [fuel] steps for each run of the scoring loop.
    [Done s] is a return of [ln_acc s]. *)
Definition posterior_func_group_cpp (fuel : nat) : outcome locals :=
  foldM (group_step fuel) (zseq (length (groups a))) initial_locals.

End Posterior.

(** ** The kernel on finite values *)

(** The uniform residual mass and the mass of a boundary bin, as real
    numbers (for [MAX_TITRE <> 2], where the division is defined). *)
Definition residual (S EA : R) (M : Z) : R :=
  (1 / (IZR M - 2) * (1 - S - EA))%R.

Definition boundary (S EA : R) (M : Z) : R :=
  (S + EA / 2 - residual S EA M)%R.

(** The value of [obs_error] when it is finite. *)
Definition kernel (actual obs : Z) (S EA : R) (M : Z) : R :=
  if (actual =? M) && (obs =? M) then boundary S EA M
  else if (actual =? 0) && (obs =? 0) then boundary S EA M
  else if actual =? obs then S
  else if (actual =? obs + 1) || (actual =? obs - 1) then (EA / 2)%R
  else residual S EA M.

(** The sum of a list of real numbers. *)
Definition Rsum (l : list R) : R := fold_right Rplus 0%R l.

(** [v] at the titre [c], zero elsewhere. *)
Definition at_titre (c : Z) (v : R) (o : Z) : R :=
  if o =? c then v else 0%R.

(** The rows of [results] from row [m] on have not been written yet, and
    [m] is the row the next (group, strain) pair accumulates into. *)
Definition rows_fresh_from (a : arguments) (m : nat) (s : locals) : Prop :=
  index_model s = Z.of_nat m /\
  length (results s) = (length (strains a) * length (groups a))%nat /\
  forall r : nat,
    (m <= r < length (results s))%nat ->
    nth_error (results s) r = Some (repeat 0%R (length (times a))).

(** The results matrix has its declared shape: a row per (group, strain)
    pair and a column per time. *)
Definition well_shaped (a : arguments) (s : locals) : Prop :=
  length (results s) = (length (strains a) * length (groups a))%nat /\
  Forall (fun row => length row = length (times a)) (results s).

(** The state of a run in which no scoring call has been made. *)
Definition before_scoring_state (a : arguments) (s : locals) : Prop :=
  well_shaped a s /\ scored s = [] /\ index_data s = 0.

(** The data cursor counts the scoring calls, which read the data rows in
    order and all scored the current results row. *)
Definition cursor_ok_state (a : arguments) (s : locals) : Prop :=
  well_shaped a s /\
  index_data s = Z.of_nat (length (scored s)) /\
  map snd (scored s) = zseq (length (scored s)) /\
  (forall p, In p (scored s) -> fst p = index_model s).

(** The arguments [a] with other group labels and another
    [measured_strains] vector. *)
Definition relabelled (a : arguments) (grp ms : IntegerVector) : arguments :=
  {| pars := pars a;
     times := times a;
     groups := grp;
     individuals := individuals a;
     strains := strains a;
     exposure_types := exposure_types a;
     exposure_strains := exposure_strains a;
     measured_strains := ms;
     exposure_orders := exposure_orders a;
     exposure_primes := exposure_primes a;
     exposure_indices := exposure_indices a;
     cr_inds := cr_inds a;
     par_type_ind := par_type_ind a;
     order_indices := order_indices a;
     exposure_i_lengths := exposure_i_lengths a;
     par_lengths := par_lengths a;
     cr_lengths := cr_lengths a;
     data := data a |}.

(** ** Scenarios *)

(** A stub for the trajectory solver: the same value at every time. *)
Definition constant_solver (c : R) : NumericVector -> NumericVector -> NumericVector :=
  fun _ t => map (fun _ => c) t.

(** A parameter table of seven rows for one measured strain and one
    exposure type: rows 0-2 are the type's kinetics block [k0; k1; k2],
    row 3 the order modifier, row 4 the cross-reactivity, rows 5 and 6 the
    infection times of two exposures.  The time grid has three points. *)
Definition scenario (k0 k1 k2 : R) (grp indiv expo expo_lengths : IntegerVector)
  (obs : NumericMatrix) : arguments :=
  {| pars := [k0; k1; k2; 1; 1; 0; 0]%R;
     times := [0; 1; 2]%R;
     groups := grp;
     individuals := indiv;
     strains := [1];
     exposure_types := [0; 0; 0; 0; 0; 1; 1];
     exposure_strains := [0; 0; 0; 0; 0; 1; 1];
     measured_strains := [0; 0; 0; 0; 0; 1; 1];
     exposure_orders := [0; 0; 0; 0; 0; 1; 1];
     exposure_primes := [0; 0; 0; 0; 0; 0; 0];
     exposure_indices := expo;
     cr_inds := [4];
     par_type_ind := [0; 1; 2];
     order_indices := [3];
     exposure_i_lengths := expo_lengths;
     par_lengths := [0; 3];
     cr_lengths := [0; 1];
     data := obs |}.

(** Two groups of one exposure each, with two individuals and one
    individual: three data rows. *)
Definition two_groups : arguments :=
  scenario (4 / 5) (3 / 20) 8 [1; 2] [2; 1] [5; 6] [0; 1; 2]
           [[4; 4; 4]; [4; 4; 4]; [5; 5; 5]]%R.

(** One group, one strain, one exposure, one individual, and a data matrix
    of [n] rows [4, 4, 4]. *)
Definition one_individual (n : nat) : arguments :=
  scenario (4 / 5) (3 / 20) 8 [1] [1] [5] [0; 1] (repeat [4; 4; 4]%R n).

(** One group, one strain, two exposures, no individual. *)
Definition two_exposures : arguments :=
  scenario (4 / 5) (3 / 20) 8 [1] [0] [5; 6] [0; 2] [].

(** One group, one strain, one individual observed at [8, 8, 8], and two
    exposures of the types [ta] and [tb], in this order.  The parameter
    table has a kinetics block per exposure type: rows 0-2 for type 1 and
    rows 3-5 for type 2; row 6 is the order modifier, row 7 the
    cross-reactivity, rows 8 and 9 the infection times. *)
Definition mixed_types (ta tb : Z) : arguments :=
  {| pars := [4 / 5; 3 / 20; 10; 1 / 2; 3 / 20; 10; 1; 1; 0; 0]%R;
     times := [0; 1; 2]%R;
     groups := [1];
     individuals := [1];
     strains := [1];
     exposure_types := [0; 0; 0; 0; 0; 0; 0; 0; ta; tb];
     exposure_strains := [0; 0; 0; 0; 0; 0; 0; 0; 1; 1];
     measured_strains := [0; 0; 0; 0; 0; 0; 0; 0; 1; 1];
     exposure_orders := [0; 0; 0; 0; 0; 0; 0; 0; 1; 1];
     exposure_primes := [0; 0; 0; 0; 0; 0; 0; 0; 0; 0];
     exposure_indices := [8; 9];
     cr_inds := [7];
     par_type_ind := [0; 1; 2; 3; 4; 5];
     order_indices := [6];
     exposure_i_lengths := [0; 2];
     par_lengths := [0; 3; 6];
     cr_lengths := [0; 1];
     data := [[8; 8; 8]]%R |}.

(** ** Facts on doubles *)

Lemma Rsign_pos (r : R) : (0 < r)%R -> Rsign r = Gt.
Proof.
  intros H. unfold Rsign.
  destruct (total_order_T r 0) as [[H0 | H0] | H0]; try reflexivity; lra.
Qed.

Lemma Rsign_neg (r : R) : (r < 0)%R -> Rsign r = Lt.
Proof.
  intros H. unfold Rsign.
  destruct (total_order_T r 0) as [[H0 | H0] | H0]; try reflexivity; lra.
Qed.

Lemma Rsign_zero : Rsign 0 = Eq.
Proof.
  unfold Rsign.
  destruct (total_order_T 0 0) as [[H0 | H0] | H0]; try reflexivity; lra.
Qed.

Lemma xdiv_fin (x y : R) : y <> 0%R -> (Fin x / Fin y)%X = Fin (x / y).
Proof.
  intros H. unfold xdiv, Rsign.
  destruct (total_order_T y 0) as [[H0 | H0] | H0]; try reflexivity.
  contradiction.
Qed.

Lemma Zfloor_bounds (x : R) : (IZR (Zfloor x) <= x < IZR (Zfloor x) + 1)%R.
Proof.
  unfold Zfloor. rewrite minus_IZR.
  destruct (archimed x) as [H1 H2]. lra.
Qed.

Lemma Zfloor_unique (x : R) (n : Z) :
  (IZR n <= x < IZR n + 1)%R -> Zfloor x = n.
Proof.
  intros [H1 H2]. destruct (Zfloor_bounds x) as [H3 H4].
  assert (Hlt1 : (IZR (Zfloor x) < IZR (n + 1))%R) by (rewrite plus_IZR; lra).
  assert (Hlt2 : (IZR n < IZR (Zfloor x + 1))%R) by (rewrite plus_IZR; lra).
  apply lt_IZR in Hlt1. apply lt_IZR in Hlt2. lia.
Qed.

Lemma Zfloor_IZR (n : Z) : Zfloor (IZR n) = n.
Proof. apply Zfloor_unique. lra. Qed.

Lemma double_to_int_IZR (n : Z) : double_to_int (IZR n) = n.
Proof.
  unfold double_to_int. destruct (Rlt_dec (IZR n) 0) as [H | H].
  - rewrite <- opp_IZR, Zfloor_IZR. lia.
  - apply Zfloor_IZR.
Qed.

Lemma double_to_int_floor (x : R) : double_to_int (floor x) = Zfloor x.
Proof. apply double_to_int_IZR. Qed.

Lemma xsum_fin_from (l : list R) (x : R) :
  fold_left xadd (map Fin l) (Fin x) = Fin (x + Rsum l).
Proof.
  revert x. induction l as [| y l IH]; intros x; simpl.
  - f_equal. lra.
  - rewrite IH. f_equal. lra.
Qed.

Lemma xsum_fin (l : list R) : xsum (map Fin l) = Fin (Rsum l).
Proof. unfold xsum. rewrite xsum_fin_from. f_equal. lra. Qed.

(** ** Facts on [obs_error] *)

Lemma xsub_fin (x y : R) : (Fin x - Fin y)%X = Fin (x - y).
Proof. reflexivity. Qed.

Lemma residual_mass_fin (S EA : R) (M : Z) :
  M <> 2 -> residual_mass S EA M = Fin (residual S EA M).
Proof.
  intros HM. unfold residual_mass, residual.
  assert (Hd : (IZR M - 2)%R <> 0%R).
  { intros H. apply HM. apply eq_IZR. lra. }
  rewrite !xsub_fin, (xdiv_fin 1 (IZR M - 2) Hd). reflexivity.
Qed.

Lemma boundary_mass_fin (S EA : R) (M : Z) :
  M <> 2 -> boundary_mass S EA M = Fin (boundary S EA M).
Proof.
  intros HM. unfold boundary_mass.
  change (Fin 1 / (Fin (IZR M) - Fin 2) * (Fin 1 - Fin S - Fin EA))%X
    with (residual_mass S EA M).
  rewrite (residual_mass_fin S EA M HM), (xdiv_fin EA 2) by lra.
  reflexivity.
Qed.

Lemma obs_error_cases (actual obs : Z) (S EA : R) (M : Z) :
  obs_error actual obs S EA M =
  if (actual =? M) && (obs =? M) then boundary_mass S EA M
  else if (actual =? 0) && (obs =? 0) then boundary_mass S EA M
  else if actual =? obs then Fin S
  else if (actual =? obs + 1) || (actual =? obs - 1) then (Fin EA / Fin 2)%X
  else residual_mass S EA M.
Proof. reflexivity. Qed.

Lemma obs_error_fin (actual obs : Z) (S EA : R) (M : Z) :
  M <> 2 -> obs_error actual obs S EA M = Fin (kernel actual obs S EA M).
Proof.
  intros HM. rewrite obs_error_cases. unfold kernel.
  rewrite (boundary_mass_fin S EA M HM), (residual_mass_fin S EA M HM).
  rewrite (xdiv_fin EA 2) by lra.
  repeat match goal with |- context [if ?b then _ else _] => destruct b end;
    reflexivity.
Qed.

Ltac eqb_cases :=
  repeat match goal with
         | |- context [?x =? ?y] => destruct (Z.eqb_spec x y)
         end;
  cbn [andb orb].

(** C6. [obs_error] is the piecewise kernel of the specification: the value
    it returns is the one, and the only one, that the four cases of
    [observationProbability] give (boundary bins, exact match, adjacent
    bins, residual), and the two boundary bins carry the same mass:
    [obs_error(0,0,S,EA,M) = obs_error(M,M,S,EA,M)]. *)
Theorem obs_error_piecewise (actual obs : Z) (S EA : R) (M : Z) :
  (forall p : xdouble,
     observationProbability actual obs S EA M p <->
     p = obs_error actual obs S EA M)
  /\ obs_error 0 0 S EA M = obs_error M M S EA M.
Proof.
  split.
  - intros p. rewrite obs_error_cases. split.
    + intros H. destruct H as [Hb | Hnb He | Hne Ha | Hne Ha].
      * destruct Hb as [[-> ->] | [-> ->]]; eqb_cases; try reflexivity; lia.
      * subst obs. eqb_cases; try reflexivity; exfalso; apply Hnb; lia.
      * eqb_cases; try reflexivity; lia.
      * eqb_cases; try reflexivity; lia.
    + intros ->. eqb_cases.
      all: try (apply op_boundary; lia).
      all: try (apply op_exact; [lia | assumption]).
      all: try (apply op_adjacent; lia).
      all: try (apply op_residual; lia).
  - rewrite !obs_error_cases. eqb_cases; try reflexivity; lia.
Qed.

(** C4, as the claim states it, fails: with [S = 0], [EA = 0] and
    [MAX_TITRE = 3] the mass of the boundary bin (0,0) is
    [0 + 0/2 - (1/1)*(1 - 0 - 0) = -1]. *)
Lemma obs_error_boundary_negative :
  (0 <= 0)%R /\ (0 <= 0)%R /\ (0 + 0 <= 1)%R /\ 3 <= 3 /\
  0 <= 0 <= 3 /\ 0 <= 0 <= 3 /\
  obs_error 0 0 0 0 3 = Fin (-1) /\
  ~ is_probability (obs_error 0 0 0 0 3).
Proof.
  assert (H : obs_error 0 0 0 0 3 = Fin (-1)).
  { rewrite obs_error_fin by lia. f_equal.
    unfold kernel, boundary, residual. cbn. lra. }
  repeat split; try lra; try lia; try exact H.
  rewrite H. cbn. lra.
Qed.

(** C4, amended.  For [0 <= S], [0 <= EA], [S + EA <= 1], [MAX_TITRE >= 3]
    and titres in [[0, MAX_TITRE]], [obs_error] returns a finite value that
    is at most 1; the value is in [[0, 1]] for every pair of titres other
    than the two boundary bins (0,0) and (MAX_TITRE,MAX_TITRE); at a boundary
    bin it is [S + EA/2 - (1/(MAX_TITRE-2))*(1-S-EA)], which is non-negative
    exactly when [1 - S - EA <= (MAX_TITRE - 2) * (S + EA/2)]. *)
Theorem obs_error_range (actual obs : Z) (S EA : R) (M : Z) :
  (0 <= S)%R -> (0 <= EA)%R -> (S + EA <= 1)%R -> 3 <= M ->
  0 <= actual <= M -> 0 <= obs <= M ->
  exists p : R,
    obs_error actual obs S EA M = Fin p /\ (p <= 1)%R /\
    (~ (actual = obs /\ (actual = 0 \/ actual = M)) ->
     is_probability (obs_error actual obs S EA M)) /\
    (actual = obs /\ (actual = 0 \/ actual = M) ->
     p = boundary S EA M /\
     ((0 <= p)%R <-> (1 - S - EA <= (IZR M - 2) * (S + EA / 2))%R)).
Proof.
  intros HS HEA HSEA HM Ha Ho.
  assert (HM3 : (3 <= IZR M)%R) by (apply IZR_le in HM; exact HM).
  assert (Hr : (0 <= residual S EA M <= 1 - S - EA)%R).
  { unfold residual. split.
    - apply Rmult_le_pos; [| lra].
      apply Rlt_le, Rdiv_lt_0_compat; lra.
    - assert (H1 : (1 / (IZR M - 2) <= 1)%R).
      { apply Rmult_le_reg_r with (IZR M - 2)%R; [lra |].
        unfold Rdiv. rewrite Rmult_assoc, Rinv_l by lra. lra. }
      assert (H0 : (0 <= 1 / (IZR M - 2))%R).
      { apply Rlt_le, Rdiv_lt_0_compat; lra. }
      nra. }
  assert (Hbnd : ((0 <= boundary S EA M)%R <->
                  (1 - S - EA <= (IZR M - 2) * (S + EA / 2))%R)).
  { unfold boundary, residual.
    assert (Heq : ((IZR M - 2) * (S + EA / 2 - 1 / (IZR M - 2) * (1 - S - EA))
                   = (IZR M - 2) * (S + EA / 2) - (1 - S - EA))%R).
    { field. lra. }
    split; intros H.
    - assert (H' : (0 <= (IZR M - 2)
                         * (S + EA / 2 - 1 / (IZR M - 2) * (1 - S - EA)))%R).
      { apply Rmult_le_pos; lra. }
      lra.
    - apply Rmult_le_reg_l with (IZR M - 2)%R; [lra |]. lra. }
  exists (kernel actual obs S EA M).
  rewrite obs_error_fin by lia.
  unfold kernel, is_probability, boundary in *.
  repeat split.
  - eqb_cases; lra.
  - eqb_cases; try lra; exfalso; apply H; lia.
  - eqb_cases; try lra; exfalso; apply H; lia.
  - destruct H as [-> [-> | ->]]; eqb_cases; try reflexivity; lia.
  - destruct H as [-> [-> | ->]]; eqb_cases; intros; try lia; lra.
  - destruct H as [-> [-> | ->]]; eqb_cases; intros; try lia; lra.
Qed.

Lemma obs_error_range_witness :
  exists p : R,
    obs_error 1 2 (4 / 5) (3 / 20) 8 = Fin p /\ (p <= 1)%R /\
    (~ (1 = 2 /\ (1 = 0 \/ 1 = 8)) ->
     is_probability (obs_error 1 2 (4 / 5) (3 / 20) 8)) /\
    (1 = 2 /\ (1 = 0 \/ 1 = 8) ->
     p = boundary (4 / 5) (3 / 20) 8 /\
     ((0 <= p)%R <->
      (1 - 4 / 5 - 3 / 20 <= (IZR 8 - 2) * (4 / 5 + 3 / 20 / 2))%R)).
Proof.
  apply (obs_error_range 1 2 (4 / 5) (3 / 20) 8); try lra; lia.
Defined.

(** *** Normalisation *)

Lemma Rsum_map_plus {A : Type} (f g : A -> R) (l : list A) :
  Rsum (map (fun x => f x + g x)%R l) = (Rsum (map f l) + Rsum (map g l))%R.
Proof. induction l as [| x l IH]; simpl; [lra | rewrite IH; lra]. Qed.

Lemma Rsum_map_ext {A : Type} (f g : A -> R) (l : list A) :
  (forall x, In x l -> f x = g x) -> Rsum (map f l) = Rsum (map g l).
Proof.
  intros H. induction l as [| x l IH]; simpl; [reflexivity |].
  rewrite (H x) by (left; reflexivity).
  rewrite IH; [reflexivity |]. intros y Hy. apply H. right. exact Hy.
Qed.

Lemma zseq_succ (n : nat) : zseq (S n) = zseq n ++ [Z.of_nat n].
Proof. unfold zseq. rewrite seq_S, map_app. reflexivity. Qed.

Lemma Rsum_app (l1 l2 : list R) : Rsum (l1 ++ l2) = (Rsum l1 + Rsum l2)%R.
Proof. induction l1 as [| x l1 IH]; simpl; [lra | rewrite IH; lra]. Qed.

Lemma In_zseq (n : nat) (z : Z) : In z (zseq n) <-> 0 <= z < Z.of_nat n.
Proof.
  unfold zseq. rewrite in_map_iff. split.
  - intros [k [<- Hk]]. apply in_seq in Hk. lia.
  - intros H. exists (Z.to_nat z). split; [lia |]. apply in_seq. lia.
Qed.

Lemma Rsum_const (c : R) (n : nat) :
  Rsum (map (fun _ => c) (zseq n)) = (INR n * c)%R.
Proof.
  induction n as [| n IH].
  - simpl. lra.
  - rewrite zseq_succ, map_app, Rsum_app, IH, S_INR. simpl. lra.
Qed.

Lemma Rsum_at_titre (c : Z) (v : R) (n : nat) :
  Rsum (map (at_titre c v) (zseq n)) =
  if (0 <=? c) && (c <? Z.of_nat n) then v else 0%R.
Proof.
  induction n as [| n IH].
  - simpl. destruct (Z.leb_spec 0 c), (Z.ltb_spec c 0);
      cbn [andb]; try reflexivity; lia.
  - rewrite zseq_succ, map_app, Rsum_app, IH.
    cbn [map Rsum fold_right]. unfold at_titre.
    destruct (Z.leb_spec 0 c), (Z.ltb_spec c (Z.of_nat n)),
      (Z.ltb_spec c (Z.of_nat (S n))), (Z.eqb_spec (Z.of_nat n) c);
      cbn [andb]; try lra; lia.
Qed.

(** The kernel is the residual mass everywhere, corrected at the titre
    itself and at its two neighbours. *)
Lemma kernel_decomposed (actual obs : Z) (S EA : R) (M : Z) :
  kernel actual obs S EA M =
  (residual S EA M
   + at_titre actual
       (if (actual =? 0) || (actual =? M)
        then boundary S EA M - residual S EA M
        else S - residual S EA M) obs
   + at_titre (actual - 1) (EA / 2 - residual S EA M) obs
   + at_titre (actual + 1) (EA / 2 - residual S EA M) obs)%R.
Proof.
  unfold kernel, at_titre.
  eqb_cases; try lra; lia.
Qed.

Lemma kernel_sum (actual : Z) (S EA : R) (M : Z) :
  3 <= M -> 0 <= actual <= M ->
  Rsum (map (fun obs => kernel actual obs S EA M) (titres M)) = 1%R.
Proof.
  intros HM Ha.
  rewrite (Rsum_map_ext _ _ _
             (fun obs _ => kernel_decomposed actual obs S EA M)).
  unfold titres.
  rewrite !Rsum_map_plus, Rsum_const, !Rsum_at_titre.
  assert (Hn : Z.of_nat (Z.to_nat (M + 1)) = M + 1) by lia.
  rewrite Hn.
  assert (HI : INR (Z.to_nat (M + 1)) = (IZR M + 1)%R).
  { rewrite INR_IZR_INZ, Hn, plus_IZR. reflexivity. }
  rewrite HI.
  assert (HM3 : (3 <= IZR M)%R) by (apply IZR_le in HM; exact HM).
  assert (Hr : ((IZR M - 2) * residual S EA M = 1 - S - EA)%R).
  { unfold residual. field. lra. }
  unfold boundary.
  destruct (Z.leb_spec 0 actual), (Z.ltb_spec actual (M + 1)),
    (Z.leb_spec 0 (actual - 1)), (Z.ltb_spec (actual - 1) (M + 1)),
    (Z.leb_spec 0 (actual + 1)), (Z.ltb_spec (actual + 1) (M + 1)),
    (Z.eqb_spec actual 0), (Z.eqb_spec actual M);
    cbn [andb orb]; try lia; lra.
Qed.

(** C5. For [MAX_TITRE >= 3] and a fixed believed titre in
    [[0, MAX_TITRE]], the values of [obs_error] over all observed titres
    [0 .. MAX_TITRE] sum to 1 exactly, for all [S] and [EA] (in exact
    arithmetic). *)
Theorem obs_error_normalised (actual : Z) (S EA : R) (M : Z) :
  3 <= M -> 0 <= actual <= M ->
  xsum (map (fun obs => obs_error actual obs S EA M) (titres M)) = Fin 1.
Proof.
  intros HM Ha.
  rewrite (map_ext _ (fun obs => Fin (kernel actual obs S EA M))).
  - rewrite <- (map_map (fun obs => kernel actual obs S EA M) Fin).
    rewrite xsum_fin, kernel_sum by assumption. reflexivity.
  - intros obs. apply obs_error_fin. lia.
Qed.

Lemma obs_error_normalised_witness :
  xsum (map (fun obs => obs_error 0 obs (4 / 5) (3 / 20) 3) (titres 3))
  = Fin 1.
Proof. apply (obs_error_normalised 0 (4 / 5) (3 / 20) 3); lia. Defined.

(** ** Facts on the containers *)

Lemma elem_of_nat {A : Type} (v : list A) (k : nat) :
  elem v (Z.of_nat k) = nth_error v k.
Proof.
  unfold elem. destruct (Z.ltb_spec (Z.of_nat k) 0); [lia |].
  rewrite Nat2Z.id. reflexivity.
Qed.

Lemma nth_error_middle {A : Type} (pre suf : list A) (b : A) :
  nth_error (pre ++ b :: suf) (length pre) = Some b.
Proof. induction pre as [| x pre IH]; simpl; [reflexivity | exact IH]. Qed.

Lemma set_nth_middle {A : Type} (pre suf : list A) (b x : A) :
  set_nth (length pre) x (pre ++ b :: suf) = pre ++ x :: suf.
Proof.
  induction pre as [| z pre IH]; simpl; [reflexivity | rewrite IH; reflexivity].
Qed.

Lemma set_nth_length {A : Type} (i : nat) (x : A) (v : list A) :
  length (set_nth i x v) = length v.
Proof.
  revert i. induction v as [| z v IH]; intros [| i]; simpl;
    try reflexivity. rewrite IH. reflexivity.
Qed.

Lemma store_set_same (h : store) (v : handle) (x : NumericVector) :
  store_set h v x v = x.
Proof. unfold store_set. rewrite Nat.eqb_refl. reflexivity. Qed.

Lemma store_set_other (h : store) (v w : handle) (x : NumericVector) :
  w <> v -> store_set h v x w = h w.
Proof.
  intros H. unfold store_set. destruct (Nat.eqb_spec w v); [contradiction |].
  reflexivity.
Qed.

Lemma assign_middle (h : store) (v : handle) (pre suf : list R) (b x : R) :
  h v = pre ++ b :: suf ->
  assign h v (Z.of_nat (length pre)) x
  = Ok (store_set h v (pre ++ x :: suf)).
Proof.
  intros Hv. unfold assign, checked.
  rewrite elem_of_nat, Hv, nth_error_middle. cbn [rbind].
  rewrite Nat2Z.id, set_nth_middle. reflexivity.
Qed.

(** ** Facts on [obs_likelihood] *)

Lemma clamp_range (M : Z) (v : R) :
  0 <= M -> (0 <= clamp M v <= IZR M)%R.
Proof.
  intros HM. apply IZR_le in HM. unfold clamp.
  destruct (Rlt_dec v 0); destruct (Rge_dec _ _); lra.
Qed.

Lemma clamp_below (M : Z) (v : R) : 0 <= M -> (v < 0)%R -> clamp M v = 0%R.
Proof.
  intros HM Hv. apply IZR_le in HM. unfold clamp.
  destruct (Rlt_dec v 0); [| lra].
  destruct (Rge_dec 0 (IZR M)); lra.
Qed.

Lemma clamp_above (M : Z) (v : R) :
  0 <= M -> (IZR M <= v)%R -> clamp M v = IZR M.
Proof.
  intros HM Hv. apply IZR_le in HM. unfold clamp.
  destruct (Rlt_dec v 0); destruct (Rge_dec _ _); lra.
Qed.

Lemma clamp_inside (M : Z) (v : R) :
  (0 <= v < IZR M)%R -> clamp M v = v.
Proof.
  intros Hv. unfold clamp.
  destruct (Rlt_dec v 0); destruct (Rge_dec _ _); lra.
Qed.

(** One turn of the loop, on a store in which the believed vector is not
    the observed vector nor the parameter vector. *)
Lemma obs_likelihood_body_step
  (y data params : handle) (M : Z) (h : store) (acc : xdouble)
  (pre suf : list R) (b d S EA : R) (rest : list R) :
  y <> data -> y <> params ->
  h y = pre ++ b :: suf ->
  nth_error (h data) (length pre) = Some d ->
  h params = S :: EA :: rest ->
  exists h' : store,
    obs_likelihood_body y data params M (Z.of_nat (length pre)) (h, acc)
    = Done (h', (acc + log_term S EA M b d)%X)
    /\ h' y = pre ++ clamp M b :: suf
    /\ (forall w, w <> y -> h' w = h w).
Proof.
  intros Hyd Hyp Hy Hd Hp.
  assert (Hd' : data <> y) by congruence.
  assert (Hp' : params <> y) by congruence.
  unfold obs_likelihood_body, log_term, clamp.
  unfold checked at 1. rewrite elem_of_nat, Hy, nth_error_middle.
  cbn [rbind bindStop].
  destruct (Rlt_dec b 0) as [Hb | Hb].
  - rewrite (assign_middle h y pre suf b 0 Hy). cbn [rbind bindStop].
    unfold checked at 1.
    rewrite elem_of_nat, store_set_same, nth_error_middle. cbn [rbind bindStop].
    destruct (Rge_dec 0 (IZR M)) as [HM | HM].
    + rewrite (assign_middle _ y pre suf 0 (IZR M) (store_set_same _ _ _)).
      cbn [rbind bindStop]. unfold checked.
      rewrite !elem_of_nat, store_set_same, nth_error_middle.
      rewrite !(store_set_other _ y data), !(store_set_other _ y params)
        by assumption.
      rewrite Hd, Hp. cbn.
      rewrite !double_to_int_floor.
      eexists. split; [reflexivity |]. split.
      * apply store_set_same.
      * intros w Hw. rewrite !store_set_other by assumption. reflexivity.
    + cbn [rbind bindStop]. unfold checked.
      rewrite !elem_of_nat, store_set_same, nth_error_middle.
      rewrite !(store_set_other _ y data), !(store_set_other _ y params)
        by assumption.
      rewrite Hd, Hp. cbn.
      rewrite !double_to_int_floor.
      eexists. split; [reflexivity |]. split.
      * apply store_set_same.
      * intros w Hw. rewrite !store_set_other by assumption. reflexivity.
  - cbn [rbind bindStop]. unfold checked at 1.
    rewrite elem_of_nat, Hy, nth_error_middle. cbn [rbind bindStop].
    destruct (Rge_dec b (IZR M)) as [HM | HM].
    + rewrite (assign_middle h y pre suf b (IZR M) Hy).
      cbn [rbind bindStop]. unfold checked.
      rewrite !elem_of_nat, store_set_same, nth_error_middle.
      rewrite !(store_set_other _ y data), !(store_set_other _ y params)
        by assumption.
      rewrite Hd, Hp. cbn.
      rewrite !double_to_int_floor.
      eexists. split; [reflexivity |]. split.
      * apply store_set_same.
      * intros w Hw. rewrite !store_set_other by assumption. reflexivity.
    + cbn [rbind bindStop]. unfold checked.
      rewrite !elem_of_nat, Hy, nth_error_middle, Hd, Hp. cbn.
      rewrite !double_to_int_floor.
      eexists. split; [reflexivity |]. split.
      * exact Hy.
      * intros w Hw. reflexivity.
Qed.

Lemma skipn_cons_nth {A : Type} (l : list A) (k : nat) :
  (k < length l)%nat ->
  exists d, nth_error l k = Some d /\ skipn k l = d :: skipn (S k) l.
Proof.
  revert k. induction l as [| x l IH]; intros k Hk; simpl in Hk; [lia |].
  destruct k as [| k].
  - exists x. split; reflexivity.
  - destruct (IH k) as [d [H1 H2]]; [lia |].
    exists d. split; [exact H1 | exact H2].
Qed.

(** The loop from position [length pre] on: the positions before it hold
    [pre], the positions from it on still hold the believed values [suf]. *)
Lemma obs_likelihood_loop
  (y data params : handle) (M : Z) (S EA : R) (rest : list R)
  (suf : list R) :
  y <> data -> y <> params ->
  forall (pre : list R) (h : store) (acc : xdouble),
    h y = pre ++ suf ->
    (length pre + length suf <= length (h data))%nat ->
    h params = S :: EA :: rest ->
    exists h' : store,
      foldM (obs_likelihood_body y data params M)
            (map Z.of_nat (seq (length pre) (length suf))) (h, acc)
      = Done (h', fold_left xadd
                    (log_terms S EA M suf (skipn (length pre) (h data))) acc)
      /\ h' y = pre ++ map (clamp M) suf
      /\ (forall w, w <> y -> h' w = h w).
Proof.
  intros Hyd Hyp.
  induction suf as [| b suf IH]; intros pre h acc Hy Hlen Hp.
  - exists h. cbn [length seq map foldM log_terms fold_left].
    split; [reflexivity |]. split; [exact Hy |].
    intros w Hw. reflexivity.
  - cbn [length] in Hlen.
    destruct (skipn_cons_nth (h data) (length pre)) as [d [Hd Hsk]]; [lia |].
    destruct (obs_likelihood_body_step y data params M h acc pre suf b d
                S EA rest Hyd Hyp Hy Hd Hp) as [h1 [Hstep [Hy1 Hfr1]]].
    assert (Hd1 : h1 data = h data) by (apply Hfr1; congruence).
    assert (Hp1 : h1 params = h params) by (apply Hfr1; congruence).
    destruct (IH (pre ++ [clamp M b]) h1 (acc + log_term S EA M b d)%X)
      as [h2 [Hloop [Hy2 Hfr2]]].
    + rewrite Hy1, <- app_assoc. reflexivity.
    + rewrite Hd1, length_app. cbn [length]. lia.
    + rewrite Hp1. exact Hp.
    + exists h2. cbn [length seq map foldM]. rewrite Hstep.
      rewrite length_app in Hloop. cbn [length] in Hloop.
      rewrite Nat.add_1_r in Hloop. rewrite Hd1 in Hloop.
      rewrite Hloop, Hsk. cbn [log_terms fold_left].
      split; [reflexivity |]. split.
      * rewrite Hy2, <- app_assoc. reflexivity.
      * intros w Hw. rewrite (Hfr2 w Hw). apply Hfr1. exact Hw.
Qed.

(** The call, on a store in which the believed vector is not the observed
    vector nor the parameter vector, the observed vector is at least as long
    as the believed one and the parameter vector has its three entries. *)
Lemma obs_likelihood_run
  (y data params : handle) (h : store) (S EA m : R) (rest : list R) :
  y <> data -> y <> params ->
  (length (h y) <= length (h data))%nat ->
  h params = S :: EA :: m :: rest ->
  exists h' : store,
    obs_likelihood y data params h
    = Done (h', xsum (log_terms S EA (double_to_int m) (h y) (h data)))
    /\ h' y = map (clamp (double_to_int m)) (h y)
    /\ (forall w, w <> y -> h' w = h w).
Proof.
  intros Hyd Hyp Hlen Hp.
  unfold obs_likelihood, checked. rewrite Hp. cbn [elem Z.ltb Z.compare].
  cbn [Z.to_nat Pos.to_nat Pos.iter_op Init.Nat.add nth_error].
  exact (obs_likelihood_loop y data params (double_to_int m) S EA (m :: rest)
           (h y) Hyd Hyp [] h (Fin 0) eq_refl Hlen Hp).
Qed.

Lemma obs_likelihood_on_run (y d : list R) (S EA m : R) (rest : list R) :
  (length y <= length d)%nat ->
  exists h' : store,
    obs_likelihood_on y d (S :: EA :: m :: rest)
    = Done (h', xsum (log_terms S EA (double_to_int m) y d))
    /\ h' 0%nat = map (clamp (double_to_int m)) y.
Proof.
  intros Hlen.
  destruct (obs_likelihood_run 0%nat 1%nat 2%nat (fresh_store y d (S :: EA :: m :: rest))
              S EA m rest) as [h' [Hrun [Hy _]]];
    try discriminate; try reflexivity; try exact Hlen.
  exists h'. split; [exact Hrun | exact Hy].
Qed.

Lemma clamp_clampSpec (M : Z) (v : R) : 0 <= M -> clamp M v = clampSpec M v.
Proof.
  intros HM. apply IZR_le in HM. unfold clamp, clampSpec.
  destruct (Rlt_dec v 0); destruct (Rge_dec _ _); try reflexivity; lra.
Qed.

Lemma xadd_low_l (a b : xdouble) :
  minus_infinity_or_nan a -> minus_infinity_or_nan (a + b)%X.
Proof.
  unfold minus_infinity_or_nan.
  intros [-> | ->]; destruct b; cbn; auto.
Qed.

Lemma xadd_low_r (a b : xdouble) :
  minus_infinity_or_nan b -> minus_infinity_or_nan (a + b)%X.
Proof.
  unfold minus_infinity_or_nan.
  intros [-> | ->]; destruct a; cbn; auto.
Qed.

Lemma fold_xadd_low_acc (l : list xdouble) (acc : xdouble) :
  minus_infinity_or_nan acc -> minus_infinity_or_nan (fold_left xadd l acc).
Proof.
  revert acc. induction l as [| x l IH]; intros acc H; cbn; [exact H |].
  apply IH, xadd_low_l, H.
Qed.

Lemma fold_xadd_low_term (l : list xdouble) (acc x : xdouble) :
  In x l -> minus_infinity_or_nan x ->
  minus_infinity_or_nan (fold_left xadd l acc).
Proof.
  revert acc. induction l as [| z l IH]; intros acc Hin Hx; [destruct Hin |].
  cbn. destruct Hin as [-> | Hin].
  - apply fold_xadd_low_acc, xadd_low_r, Hx.
  - apply IH; assumption.
Qed.

Lemma xlog_nonpositive (p : xdouble) :
  nonpositive p -> minus_infinity_or_nan (xlog p).
Proof.
  unfold minus_infinity_or_nan.
  destruct p as [r | | |]; cbn; intros H; try tauto.
  unfold Rsign. destruct (total_order_T r 0) as [[H0 | H0] | H0]; auto; lra.
Qed.

Lemma log_terms_In (S EA : R) (M : Z) (y d : list R) (i : nat) (b o : R) :
  nth_error y i = Some b -> nth_error d i = Some o ->
  In (log_term S EA M b o) (log_terms S EA M y d).
Proof.
  revert d i. induction y as [| b0 y IH]; intros d i Hb Ho.
  - destruct i; discriminate.
  - destruct d as [| o0 d]; [destruct i; discriminate |].
    destruct i as [| i]; cbn in Hb, Ho.
    + injection Hb as ->. injection Ho as ->. left. reflexivity.
    + right. apply (IH d i); assumption.
Qed.

Lemma log_terms_map (S EA : R) (M : Z) (f : R -> R) (y d : list R) :
  (forall b, clamp M (f b) = clamp M b) ->
  log_terms S EA M (map f y) d = log_terms S EA M y d.
Proof.
  intros Hf. revert d. induction y as [| b y IH]; intros [| o d];
    cbn; try reflexivity.
  unfold log_term. rewrite Hf, IH. reflexivity.
Qed.

(** C7. On paired sequences (the observed vector covers the believed one,
    the parameter vector holds [S], [EA], [MAX_TITRE], and the believed
    vector is a vector of its own), [obs_likelihood] returns the sum, started
    at zero and accumulated position by position, of the logarithm of
    [obs_error] at the clamped and floored believed value and the floored
    observed value, with nothing else added or rescaled; and when the
    probability of some position is zero or negative, the call still returns
    (it does not stop with an error) and the value it returns is minus
    infinity or NaN. *)
Theorem obs_likelihood_sum_of_logs
  (y data params : handle) (h : store) (S EA m : R) (rest : list R) :
  y <> data -> y <> params ->
  (length (h y) <= length (h data))%nat ->
  h params = S :: EA :: m :: rest ->
  exists h' : store,
    obs_likelihood y data params h
    = Done (h', xsum (log_terms S EA (double_to_int m) (h y) (h data)))
    /\ ((exists (i : nat) (b o : R),
           nth_error (h y) i = Some b /\ nth_error (h data) i = Some o /\
           nonpositive (obs_error (Zfloor (clamp (double_to_int m) b))
                                  (Zfloor o) S EA (double_to_int m))) ->
        minus_infinity_or_nan
          (xsum (log_terms S EA (double_to_int m) (h y) (h data)))
        /\ ~ finite (xsum (log_terms S EA (double_to_int m) (h y) (h data)))).
Proof.
  intros Hyd Hyp Hlen Hp.
  destruct (obs_likelihood_run y data params h S EA m rest Hyd Hyp Hlen Hp)
    as [h' [Hrun _]].
  exists h'. split; [exact Hrun |].
  intros [i [b [o [Hb [Ho Hneg]]]]].
  assert (Hlow : minus_infinity_or_nan
                   (xsum (log_terms S EA (double_to_int m) (h y) (h data)))).
  { apply (fold_xadd_low_term _ _ (log_term S EA (double_to_int m) b o)).
    - apply (log_terms_In _ _ _ _ _ i); assumption.
    - apply xlog_nonpositive, Hneg. }
  split; [exact Hlow |].
  destruct Hlow as [-> | ->]; cbn; tauto.
Qed.

Lemma obs_likelihood_sum_of_logs_witness :
  exists h' : store,
    obs_likelihood 0%nat 1%nat 2%nat
      (fresh_store [4; 4; 4]%R [4; 0; 9]%R [4 / 5; 3 / 20; 8]%R)
    = Done (h', xsum (log_terms (4 / 5) (3 / 20) (double_to_int 8)
                        [4; 4; 4]%R [4; 0; 9]%R))
    /\ ((exists (i : nat) (b o : R),
           nth_error [4; 4; 4]%R i = Some b /\
           nth_error [4; 0; 9]%R i = Some o /\
           nonpositive (obs_error (Zfloor (clamp (double_to_int 8) b))
                                  (Zfloor o) (4 / 5) (3 / 20)
                                  (double_to_int 8))) ->
        minus_infinity_or_nan
          (xsum (log_terms (4 / 5) (3 / 20) (double_to_int 8)
                   [4; 4; 4]%R [4; 0; 9]%R))
        /\ ~ finite (xsum (log_terms (4 / 5) (3 / 20) (double_to_int 8)
                            [4; 4; 4]%R [4; 0; 9]%R))).
Proof.
  apply (obs_likelihood_sum_of_logs 0%nat 1%nat 2%nat
           (fresh_store [4; 4; 4]%R [4; 0; 9]%R [4 / 5; 3 / 20; 8]%R)
           (4 / 5) (3 / 20) 8 []).
  - discriminate.
  - discriminate.
  - simpl. lia.
  - reflexivity.
Defined.

(** With [S = 1] and [EA = 0] the residual mass is zero: a believed titre
    of 4 observed as 0 has probability zero, and the call returns minus
    infinity. *)
Example infeasible_parameters :
  returned (obs_likelihood_on [4]%R [0]%R [1; 0; 8]%R) = Some NInf.
Proof.
  destruct (obs_likelihood_on_run [4]%R [0]%R 1 0 8 []) as [h' [Hrun _]];
    [cbn; lia |].
  rewrite Hrun. cbn [returned log_terms]. f_equal.
  rewrite (double_to_int_IZR 8). unfold log_term.
  rewrite (clamp_inside 8 4) by lra.
  rewrite (Zfloor_IZR 4), (Zfloor_IZR 0), obs_error_fin by lia.
  unfold kernel. cbn [Z.eqb Pos.eqb andb orb Z.add Z.sub Z.opp Z.pos_sub
                      Pos.add Pos.succ Pos.pred_double].
  replace (residual 1 0 8) with 0%R by (unfold residual; lra).
  unfold xsum. cbn [fold_left xlog]. rewrite Rsign_zero. reflexivity.
Qed.

Lemma log_terms_specTerms (S EA : R) (M : Z) (y d : list R) :
  0 <= M -> log_terms S EA M y d = specTerms S EA M y d.
Proof.
  intros HM. revert d. induction y as [| b y IH]; intros [| o d];
    cbn; try reflexivity.
  unfold log_term. rewrite (clamp_clampSpec M b HM), IH. reflexivity.
Qed.

(** C8. On paired sequences [obs_likelihood] scores, at every position,
    the believed value after the two assignments of lines 40-41 (the
    [clamp]), floored, against the floored observed value.  For
    [MAX_TITRE >= 0], the scale of the claim's interval [[0, MAX_TITRE]],
    the two assignments are the specification's clamp: they put every value
    into [[0, MAX_TITRE]], a value below 0 becomes 0, a value at or above
    [MAX_TITRE] becomes [MAX_TITRE], and the returned value is the
    specification's sequence log-likelihood.  A believed value of -3 with
    [MAX_TITRE = 5] scores as a believed value of 0 does. *)
Theorem obs_likelihood_clamps
  (y data params : handle) (h : store) (S EA m : R) (rest : list R) :
  y <> data -> y <> params ->
  (length (h y) <= length (h data))%nat ->
  h params = S :: EA :: m :: rest ->
  returned (obs_likelihood y data params h)
  = Some (xsum (log_terms S EA (double_to_int m) (h y) (h data)))
  /\ (0 <= double_to_int m ->
      returned (obs_likelihood y data params h)
      = Some (sequenceLogLikelihood (h y) (h data) S EA (double_to_int m))
      /\ forall v : R,
           clamp (double_to_int m) v = clampSpec (double_to_int m) v /\
           (0 <= clamp (double_to_int m) v <= IZR (double_to_int m))%R /\
           ((v < 0)%R -> clamp (double_to_int m) v = 0%R) /\
           ((IZR (double_to_int m) <= v)%R ->
            clamp (double_to_int m) v = IZR (double_to_int m)))
  /\ (forall o S' EA' : R,
        returned (obs_likelihood_on [-3]%R [o] [S'; EA'; 5]%R)
        = returned (obs_likelihood_on [0]%R [o] [S'; EA'; 5]%R)
        /\ returned (obs_likelihood_on [0]%R [o] [S'; EA'; 5]%R)
           = Some (xlog (obs_error 0 (Zfloor o) S' EA' 5))).
Proof.
  intros Hyd Hyp Hlen Hp.
  destruct (obs_likelihood_run y data params h S EA m rest Hyd Hyp Hlen Hp)
    as [h' [Hrun _]].
  split; [| split].
  - rewrite Hrun. reflexivity.
  - intros HM. split.
    + rewrite Hrun. cbn [returned]. unfold sequenceLogLikelihood.
      rewrite (log_terms_specTerms _ _ _ _ _ HM). reflexivity.
    + intros v. split; [| split; [| split]].
      * apply clamp_clampSpec, HM.
      * apply clamp_range, HM.
      * apply clamp_below, HM.
      * apply clamp_above, HM.
  - intros o S' EA'.
    destruct (obs_likelihood_on_run [-3]%R [o] S' EA' 5 [])
      as [h1 [H1 _]]; [cbn; lia |].
    destruct (obs_likelihood_on_run [0]%R [o] S' EA' 5 [])
      as [h2 [H2 _]]; [cbn; lia |].
    rewrite H1, H2. cbn [returned log_terms].
    rewrite (double_to_int_IZR 5). unfold log_term.
    rewrite (clamp_below 5 (-3)) by (try lia; lra).
    rewrite (clamp_inside 5 0) by lra.
    rewrite (Zfloor_IZR 0). unfold xsum. cbn [fold_left].
    split; [reflexivity |].
    f_equal. destruct (xlog _); cbn; try reflexivity. f_equal. lra.
Qed.

Lemma obs_likelihood_clamps_witness :
  returned (obs_likelihood 0%nat 1%nat 2%nat
              (fresh_store [-3; 9]%R [0; 5]%R [4 / 5; 3 / 20; 5]%R))
  = Some (xsum (log_terms (4 / 5) (3 / 20) (double_to_int 5)
                  [-3; 9]%R [0; 5]%R))
  /\ (0 <= double_to_int 5 ->
      returned (obs_likelihood 0%nat 1%nat 2%nat
                  (fresh_store [-3; 9]%R [0; 5]%R [4 / 5; 3 / 20; 5]%R))
      = Some (sequenceLogLikelihood [-3; 9]%R [0; 5]%R (4 / 5) (3 / 20)
                (double_to_int 5))
      /\ forall v : R,
           clamp (double_to_int 5) v = clampSpec (double_to_int 5) v /\
           (0 <= clamp (double_to_int 5) v <= IZR (double_to_int 5))%R /\
           ((v < 0)%R -> clamp (double_to_int 5) v = 0%R) /\
           ((IZR (double_to_int 5) <= v)%R ->
            clamp (double_to_int 5) v = IZR (double_to_int 5)))
  /\ (forall o S' EA' : R,
        returned (obs_likelihood_on [-3]%R [o] [S'; EA'; 5]%R)
        = returned (obs_likelihood_on [0]%R [o] [S'; EA'; 5]%R)
        /\ returned (obs_likelihood_on [0]%R [o] [S'; EA'; 5]%R)
           = Some (xlog (obs_error 0 (Zfloor o) S' EA' 5))).
Proof.
  apply (obs_likelihood_clamps 0%nat 1%nat 2%nat
           (fresh_store [-3; 9]%R [0; 5]%R [4 / 5; 3 / 20; 5]%R)
           (4 / 5) (3 / 20) 5 []).
  - discriminate.
  - discriminate.
  - simpl. lia.
  - reflexivity.
Defined.

(** C10, amended.  [obs_likelihood] writes through its believed-titre
    handle.  After a call in which the believed vector is a vector of its
    own (not the observed-data vector, not the parameter vector), the
    observed-data vector is at least as long as the believed one and the
    parameter vector has its three entries, the vector behind that handle
    holds, at every position, the value the two assignments of lines 40-41
    leave there; for [MAX_TITRE >= 0] every element that was below 0 holds
    0, every element that was at or above [MAX_TITRE] holds [MAX_TITRE], and
    every other element holds what it held.  The observed-data vector, the
    parameter vector and every other vector of the store are unchanged. *)
Theorem obs_likelihood_mutates_believed
  (y data params : handle) (h : store) (S EA m : R) (rest : list R) :
  y <> data -> y <> params ->
  (length (h y) <= length (h data))%nat ->
  h params = S :: EA :: m :: rest ->
  exists (h' : store) (v : xdouble),
    obs_likelihood y data params h = Done (h', v)
    /\ h' y = map (clamp (double_to_int m)) (h y)
    /\ (0 <= double_to_int m ->
        forall (i : nat) (b : R),
          nth_error (h y) i = Some b ->
          ((b < 0)%R -> nth_error (h' y) i = Some 0%R) /\
          ((IZR (double_to_int m) <= b)%R ->
           nth_error (h' y) i = Some (IZR (double_to_int m))) /\
          ((0 <= b < IZR (double_to_int m))%R ->
           nth_error (h' y) i = Some b))
    /\ h' data = h data
    /\ h' params = h params
    /\ (forall w : handle, w <> y -> h' w = h w).
Proof.
  intros Hyd Hyp Hlen Hp.
  destruct (obs_likelihood_run y data params h S EA m rest Hyd Hyp Hlen Hp)
    as [h' [Hrun [Hy Hfr]]].
  exists h', (xsum (log_terms S EA (double_to_int m) (h y) (h data))).
  split; [exact Hrun |]. split; [exact Hy |].
  split; [| split; [| split]].
  - intros HM i b Hb. rewrite Hy, nth_error_map, Hb. cbn [option_map].
    split; [| split]; intros Hc.
    + rewrite clamp_below by assumption. reflexivity.
    + rewrite clamp_above by assumption. reflexivity.
    + rewrite clamp_inside by assumption. reflexivity.
  - apply Hfr. congruence.
  - apply Hfr. congruence.
  - exact Hfr.
Qed.

Lemma obs_likelihood_mutates_believed_witness :
  exists (h' : store) (v : xdouble),
    obs_likelihood 0%nat 1%nat 2%nat
      (fresh_store [-3; 9; 2]%R [0; 5; 2]%R [4 / 5; 3 / 20; 5]%R)
    = Done (h', v)
    /\ h' 0%nat = map (clamp (double_to_int 5)) [-3; 9; 2]%R
    /\ (0 <= double_to_int 5 ->
        forall (i : nat) (b : R),
          nth_error [-3; 9; 2]%R i = Some b ->
          ((b < 0)%R -> nth_error (h' 0%nat) i = Some 0%R) /\
          ((IZR (double_to_int 5) <= b)%R ->
           nth_error (h' 0%nat) i = Some (IZR (double_to_int 5))) /\
          ((0 <= b < IZR (double_to_int 5))%R ->
           nth_error (h' 0%nat) i = Some b))
    /\ h' 1%nat = [0; 5; 2]%R
    /\ h' 2%nat = [4 / 5; 3 / 20; 5]%R
    /\ (forall w : handle,
          w <> 0%nat ->
          h' w = fresh_store [-3; 9; 2]%R [0; 5; 2]%R
                   [4 / 5; 3 / 20; 5]%R w).
Proof.
  apply (obs_likelihood_mutates_believed 0%nat 1%nat 2%nat
           (fresh_store [-3; 9; 2]%R [0; 5; 2]%R [4 / 5; 3 / 20; 5]%R)
           (4 / 5) (3 / 20) 5 []).
  - discriminate.
  - discriminate.
  - simpl. lia.
  - reflexivity.
Defined.

(** ** Facts on the loops *)

Lemma foldM_app {A St : Type} (f : A -> St -> outcome St) (l1 l2 : list A)
  (s : St) :
  foldM f (l1 ++ l2) s =
  match foldM f l1 s with
  | Done s' => foldM f l2 s'
  | Stop e s' => Stop e s'
  end.
Proof.
  revert s. induction l1 as [| x l1 IH]; intros s; cbn; [reflexivity |].
  destruct (f x s); [apply IH | reflexivity].
Qed.

(** An invariant indexed by the loop counter holds when a counted loop
    ends. *)
Lemma foldM_zseq_invariant {St : Type} (P : nat -> St -> Prop)
  (f : Z -> St -> outcome St) (n : nat) (s s' : St) :
  (forall k t t', (k < n)%nat -> P k t -> f (Z.of_nat k) t = Done t' ->
                  P (S k) t') ->
  P O s -> foldM f (zseq n) s = Done s' -> P n s'.
Proof.
  intros Hstep H0. revert s'.
  induction n as [| n IH]; intros s' Hrun.
  - cbn in Hrun. injection Hrun as <-. exact H0.
  - rewrite zseq_succ, foldM_app in Hrun.
    destruct (foldM f (zseq n) s) as [t | e t] eqn:Hpre; [| discriminate].
    cbn in Hrun.
    destruct (f (Z.of_nat n) t) as [t' | e t'] eqn:Hf; [| discriminate].
    injection Hrun as <-.
    apply (Hstep n t t'); [lia | | exact Hf].
    apply IH; [| reflexivity].
    intros k u u' Hk. apply Hstep. lia.
Qed.

(** An invariant of the body holds when a loop over a list ends. *)
Lemma foldM_invariant {A St : Type} (P : St -> Prop)
  (f : A -> St -> outcome St) (l : list A) (s s' : St) :
  (forall x t t', P t -> f x t = Done t' -> P t') ->
  P s -> foldM f l s = Done s' -> P s'.
Proof.
  intros Hstep. revert s.
  induction l as [| x l IH]; intros s H0 Hrun; cbn in Hrun.
  - injection Hrun as <-. exact H0.
  - destruct (f x s) as [t | e t] eqn:Hf; [| discriminate].
    apply (IH t); [apply (Hstep x s t H0 Hf) | exact Hrun].
Qed.

(** ** Facts on [posterior_func_group_cpp] *)

Section PosteriorFacts.

Variable solver : NumericVector -> NumericVector -> NumericVector.
Variable a : arguments.

Lemma score_individual_done (s s' : locals) :
  score_individual a s = Done s' ->
  results s' = results s /\ fullPars s' = fullPars s /\
  index_model s' = index_model s /\
  index_data s' = index_data s + 1 /\
  scored s' = scored s ++ [(index_model s, index_data s)].
Proof.
  unfold score_individual. intros H.
  destruct (checked (results s) (index_model s)); [| discriminate].
  destruct (checked (data a) (index_data s)); [| discriminate].
  destruct (obs_likelihood_on _ _ _) as [[h v] | e p]; [| discriminate].
  injection H as <-. cbn. repeat split.
Qed.

Lemma score_individual_stop (s s' : locals) (e : failure) :
  score_individual a s = Stop e s' -> s' = s.
Proof.
  unfold score_individual. intros H.
  destruct (checked (results s) (index_model s));
    [| injection H as _ <-; reflexivity].
  destruct (checked (data a) (index_data s));
    [| injection H as _ <-; reflexivity].
  destruct (obs_likelihood_on _ _ _) as [[h v] | e' p];
    [discriminate | injection H as _ <-; reflexivity].
Qed.

(** The scoring loop leaves the results matrix, the row cursor and the
    assembled parameters as they are, however it ends. *)
Lemma scoring_loop_frame (fuel : nat) (i j : Z) :
  forall (jj : Z) (s : locals),
    results (final (scoring_loop a fuel i j jj s)) = results s /\
    fullPars (final (scoring_loop a fuel i j jj s)) = fullPars s /\
    index_model (final (scoring_loop a fuel i j jj s)) = index_model s.
Proof.
  induction fuel as [| fuel IH]; intros jj s; cbn [scoring_loop].
  - cbn. repeat split.
  - destruct (unchecked (individuals a) i) as [n | e]; [| cbn; repeat split].
    destruct (j <? n); [| cbn; repeat split].
    destruct (score_individual a s) as [s1 | e s1] eqn:Hs.
    + destruct (score_individual_done s s1 Hs) as [Hr [Hf [Hm _]]].
      destruct (IH (jj + 1) s1) as [Hr1 [Hf1 Hm1]].
      rewrite Hr1, Hf1, Hm1. repeat split; assumption.
    + rewrite (score_individual_stop s s1 e Hs). cbn. repeat split.
Qed.

(** The guard of the scoring loop does not depend on the loop: when it
    holds on entry the loop has no exit through its guard. *)
Lemma scoring_loop_no_exit (fuel : nat) (i j n : Z) :
  unchecked (individuals a) i = Ok n -> j < n ->
  forall (jj : Z) (s s' : locals), scoring_loop a fuel i j jj s <> Done s'.
Proof.
  intros Hn Hj.
  induction fuel as [| fuel IH]; intros jj s s'; cbn [scoring_loop].
  - discriminate.
  - rewrite Hn. destruct (Z.ltb_spec j n); [| lia].
    destruct (score_individual a s) as [s1 | e s1]; [apply IH | discriminate].
Qed.

(** When the scoring loop ends through its guard it has scored no one. *)
Lemma scoring_loop_done (fuel : nat) (i j jj : Z) (s s' : locals) :
  scoring_loop a fuel i j jj s = Done s' ->
  s' = s /\ exists n, unchecked (individuals a) i = Ok n /\ n <= j.
Proof.
  destruct fuel as [| fuel]; cbn [scoring_loop]; [discriminate |].
  destruct (unchecked (individuals a) i) as [n | e] eqn:Hn; [| discriminate].
  destruct (Z.ltb_spec j n) as [Hj | Hj].
  - intros H. exfalso.
    destruct (score_individual a s) as [s1 | e s1]; [| discriminate].
    exact (scoring_loop_no_exit fuel i j n Hn Hj _ _ _ H).
  - intros H. injection H as <-. split; [reflexivity |].
    exists n. split; [reflexivity | exact Hj].
Qed.

Lemma exposure_step_done (strain e : Z) (s s' : locals) :
  exposure_step solver a strain e s = Done s' ->
  exists fp,
    assemble_fullPars a strain e = Ok fp /\
    add_trajectory (results s) (index_model s) (solver fp (times a))
    = Ok (results s') /\
    fullPars s' = fp /\ ln_acc s' = ln_acc s /\
    index_data s' = index_data s /\ index_model s' = index_model s /\
    scored s' = scored s.
Proof.
  unfold exposure_step. intros H.
  destruct (assemble_fullPars a strain e) as [fp | err]; [| discriminate].
  destruct (add_trajectory _ _ _) as [res | err] eqn:Hadd; [| discriminate].
  injection H as <-. exists fp. cbn. rewrite Hadd. repeat split.
Qed.

(** A run that returns has scored no individual: it returns zero. *)
Lemma posterior_returns_unscored (fuel : nat) (s : locals) :
  posterior_func_group_cpp solver a fuel = Done s ->
  scored s = [] /\ ln_acc s = Fin 0 /\ index_data s = 0.
Proof.
  pose (P := fun t : locals =>
               scored t = [] /\ ln_acc t = Fin 0 /\ index_data t = 0).
  unfold posterior_func_group_cpp. intros Hrun.
  refine (foldM_invariant P _ _ _ _ _ _ Hrun); [| cbn; repeat split].
  intros i t t' Ht. unfold group_step.
  destruct (unchecked (groups a) i); [| discriminate].
  destruct (group_exposures a i) as [tmp | e]; [| discriminate].
  intros Hgrp.
  refine (foldM_invariant P _ _ _ _ _ Ht Hgrp).
  clear t t' Ht Hgrp. intros j t t' Ht. unfold strain_step.
  destruct (unchecked (strains a) j) as [sj | e]; [| discriminate].
  destruct (foldM _ tmp t) as [t1 | e t1] eqn:Hexp; [| discriminate].
  destruct (scoring_loop a fuel i j 0 t1) as [t2 | e t2] eqn:Hsc;
    [| discriminate].
  intros H. injection H as <-. unfold P. cbn.
  destruct (scoring_loop_done fuel i j 0 t1 t2 Hsc) as [-> _].
  refine (foldM_invariant P _ _ _ _ _ Ht Hexp).
  intros e u u' Hu Hstep.
  destruct (exposure_step_done _ e u u' Hstep)
    as [fp [_ [_ [_ [Hl [Hd [_ Hs]]]]]]].
  unfold P. rewrite Hl, Hd, Hs. exact Hu.
Qed.

End PosteriorFacts.

Section ScoringLoop.

Variable a : arguments.

Lemma checked_of_nat {A : Type} (v : list A) (k : nat) (x : A) :
  nth_error v k = Some x -> checked v (Z.of_nat k) = Ok x.
Proof. intros H. unfold checked. rewrite elem_of_nat, H. reflexivity. Qed.

Lemma checked_past_end {A : Type} (v : list A) :
  checked v (Z.of_nat (length v)) = Err IndexOutOfBounds.
Proof.
  unfold checked. rewrite elem_of_nat.
  assert (H : nth_error v (length v) = None) by (apply nth_error_None; lia).
  rewrite H. reflexivity.
Qed.

(** When the guard holds on entry, the scoring loop scores the current
    results row against every remaining row of the data matrix, whatever
    [individuals] says, and is stopped by the row access past the last row. *)
Lemma scoring_loop_exhausts
  (i j n : Z) (y : list R) (S EA m : R) (rest : list R) (k : nat) :
  unchecked (individuals a) i = Ok n -> j < n ->
  forall (fuel d0 : nat) (jj : Z) (res : NumericMatrix) (acc : xdouble)
         (im : Z) (tr : list (Z * Z)),
    (d0 + k = length (data a))%nat ->
    (k < fuel)%nat ->
    checked res im = Ok y ->
    (forall row, In row (skipn d0 (data a)) ->
                 (length y <= length row)%nat) ->
    scoring_loop a fuel i j jj
      (mkLocals res (S :: EA :: m :: rest) acc (Z.of_nat d0) im tr)
    = Stop IndexOutOfBounds
        (mkLocals res (S :: EA :: m :: rest)
           (fold_left xadd
              (map (fun row => xsum (log_terms S EA (double_to_int m) y row))
                   (skipn d0 (data a)))
              acc)
           (Z.of_nat (length (data a))) im
           (tr ++ map (fun r => (im, Z.of_nat r)) (seq d0 k))).
Proof.
  intros Hn Hj.
  induction k as [| k IH]; intros fuel d0 jj res acc im tr Hd Hfuel Hy Hrows.
  - destruct fuel as [| fuel]; [lia |]. cbn [scoring_loop].
    rewrite Hn. destruct (Z.ltb_spec j n); [| lia].
    unfold score_individual. cbn [results index_model index_data].
    rewrite Hy.
    assert (Hd0 : d0 = length (data a)) by lia. subst d0.
    rewrite checked_past_end, skipn_all, app_nil_r. reflexivity.
  - destruct fuel as [| fuel]; [lia |]. cbn [scoring_loop].
    rewrite Hn. destruct (Z.ltb_spec j n); [| lia].
    destruct (skipn_cons_nth (data a) d0) as [row [Hrow Hsk]]; [lia |].
    unfold score_individual. cbn [results index_model index_data fullPars].
    rewrite Hy, (checked_of_nat _ _ _ Hrow).
    destruct (obs_likelihood_on_run y row S EA m rest) as [h' [Hrun _]].
    { apply Hrows. rewrite Hsk. left. reflexivity. }
    rewrite Hrun. cbn [ln_acc scored].
    replace (Z.of_nat d0 + 1) with (Z.of_nat (Datatypes.S d0)) by lia.
    rewrite (IH fuel (Datatypes.S d0)); try lia; try assumption.
    + rewrite Hsk. cbn [map fold_left seq].
      rewrite <- app_assoc. reflexivity.
    + intros r Hr. apply Hrows. rewrite Hsk. right. exact Hr.
Qed.

End ScoringLoop.

(** ** The scenarios, evaluated *)

Lemma two_groups_first_row :
  foldM (exposure_step (constant_solver 4) two_groups 0) [5]
        (initial_locals two_groups)
  = Done (mkLocals [[0 + 4; 0 + 4; 0 + 4]; [0; 0; 0]]%R
                   [4 / 5; 3 / 20; 8; 0; 1; 1; 0]%R (Fin 0) 0 0 []).
Proof. reflexivity. Qed.

(** The term of a position at which the believed value and the observed
    value are the same interior titre. *)
Lemma log_term_exact (S EA : R) (M v : Z) (b o : R) :
  b = IZR v -> o = IZR v -> 0 < v < M -> (0 < S)%R ->
  log_term S EA M b o = Fin (ln S).
Proof.
  intros -> -> Hv HS. unfold log_term.
  rewrite clamp_inside, !Zfloor_IZR.
  - rewrite obs_error_cases.
    destruct (Z.eqb_spec v M); [lia |].
    destruct (Z.eqb_spec v 0); [lia |].
    cbn [andb]. rewrite Z.eqb_refl. cbn [xlog].
    rewrite (Rsign_pos S HS). reflexivity.
  - split; [apply IZR_le | apply IZR_lt]; lia.
Qed.

Lemma three_exact_terms (S EA : R) (M v : Z) (b1 b2 b3 o1 o2 o3 : R) :
  b1 = IZR v -> b2 = IZR v -> b3 = IZR v ->
  o1 = IZR v -> o2 = IZR v -> o3 = IZR v ->
  0 < v < M -> (0 < S)%R ->
  xsum (log_terms S EA M [b1; b2; b3] [o1; o2; o3]) = Fin (3 * ln S).
Proof.
  intros H1 H2 H3 G1 G2 G3 Hv HS. cbn [log_terms].
  rewrite (log_term_exact S EA M v b1 o1), (log_term_exact S EA M v b2 o2),
    (log_term_exact S EA M v b3 o3) by assumption.
  unfold xsum. cbn. f_equal. lra.
Qed.

Lemma ln_distinct (x y : R) : (0 < x)%R -> (0 < y)%R -> x <> y ->
  Fin (3 * ln x) <> Fin (3 * ln y).
Proof.
  intros Hx Hy Hne H. injection H as H. apply Hne.
  apply ln_inv; try assumption. lra.
Qed.

(** C1, evaluated on two groups with [individuals = [2; 1]] and three data
    rows.  The guard of the scoring loop compares [j] (0 for the only
    strain), not the loop's counter, with [individuals[0] = 2]: the loop of
    the first group scores all three data rows against the first group's
    results row (row 0), the third row included, and the evaluation then
    stops at the access to a fourth data row; the second group is not
    reached.  The claim has two scoring steps for the first group and the
    third data row scored against the second group's row. *)
Theorem two_groups_scoring (k : nat) :
  exists s : locals,
    posterior_func_group_cpp (constant_solver 4) two_groups (4 + k)
    = Stop IndexOutOfBounds s
    /\ individuals two_groups = [2; 1]
    /\ scored s = [(0, 0); (0, 1); (0, 2)]
    /\ index_model s = 0 /\ index_data s = 3.
Proof.
  unfold posterior_func_group_cpp.
  change (zseq (length (groups two_groups))) with [0; 1].
  cbn [foldM]. unfold group_step at 1.
  change (unchecked (groups two_groups) 0) with (@Ok Z 1).
  change (group_exposures two_groups 0) with (@Ok (list Z) [5]).
  cbv beta iota.
  change (zseq (length (strains two_groups))) with [0].
  cbn [foldM]. unfold strain_step at 1.
  change (unchecked (strains two_groups) 0) with (@Ok Z 1).
  cbv beta iota zeta. change (1 - 1) with 0.
  rewrite two_groups_first_row.
  assert (Hloop := scoring_loop_exhausts two_groups 0 0 2
            [0 + 4; 0 + 4; 0 + 4]%R (4 / 5) (3 / 20) 8 [0; 1; 1; 0]%R 3
            eq_refl eq_refl (4 + k)%nat 0%nat 0
            [[0 + 4; 0 + 4; 0 + 4]; [0; 0; 0]]%R (Fin 0) 0 []
            eq_refl).
  change (Z.of_nat 0) with 0 in Hloop.
  rewrite Hloop.
  - eexists. split; [reflexivity |]. repeat split.
  - lia.
  - reflexivity.
  - intros row [<- | [<- | [<- | []]]]; cbn; lia.
Qed.

Lemma one_individual_first_row (n : nat) :
  foldM (exposure_step (constant_solver 4) (one_individual n) 0) [5]
        (initial_locals (one_individual n))
  = Done (mkLocals [[0 + 4; 0 + 4; 0 + 4]]%R
                   [4 / 5; 3 / 20; 8; 0; 1; 1; 0]%R (Fin 0) 0 0 []).
Proof. reflexivity. Qed.

Lemma fold_xadd_repeat_fin (x : R) (n : nat) (acc : R) :
  fold_left xadd (repeat (Fin x) n) (Fin acc) = Fin (acc + INR n * x).
Proof.
  revert acc. induction n as [| n IH]; intros acc.
  - cbn. f_equal. lra.
  - cbn [repeat fold_left xadd]. rewrite IH, S_INR. f_equal. lra.
Qed.

(** C2, evaluated on one group with one individual, one strain, one
    exposure, three time points and a data matrix of [n] rows.  Whatever
    the step budget, the evaluation does not return; with a budget above [n]
    it is stopped by the access to a data row past the last one, after [n]
    scoring calls: the work follows the number of data rows, which the size
    of the time grid and the exposure count do not bound.  For [n = 1] (the
    individual's row [4, 4, 4]) the accumulated value at that point is
    [3 * ln (4/5)], which is never returned. *)
Theorem one_individual_does_not_return (n k : nat) :
  (forall (fuel : nat) (s : locals),
     posterior_func_group_cpp (constant_solver 4) (one_individual n) fuel
     <> Done s)
  /\ exists s : locals,
       posterior_func_group_cpp (constant_solver 4) (one_individual n)
                                (S n + k)
       = Stop IndexOutOfBounds s
       /\ individuals (one_individual n) = [1]
       /\ scored s = map (fun r => (0, Z.of_nat r)) (seq 0 n)
       /\ ln_acc s = Fin (INR n * (3 * ln (4 / 5))).
Proof.
  assert (Hunfold : forall fuel,
    posterior_func_group_cpp (constant_solver 4) (one_individual n) fuel
    = match scoring_loop (one_individual n) fuel 0 0 0
              (mkLocals [[0 + 4; 0 + 4; 0 + 4]]%R
                 [4 / 5; 3 / 20; 8; 0; 1; 1; 0]%R (Fin 0) 0 0 []) with
      | Done s2 =>
          Done (mkLocals (results s2) (fullPars s2) (ln_acc s2)
                  (index_data s2) (index_model s2 + 1) (scored s2))
      | Stop err s2 => Stop err s2
      end).
  { intros fuel. unfold posterior_func_group_cpp.
    change (zseq (length (groups (one_individual n)))) with [0].
    cbn [foldM]. unfold group_step.
    change (unchecked (groups (one_individual n)) 0) with (@Ok Z 1).
    change (group_exposures (one_individual n) 0) with (@Ok (list Z) [5]).
    cbv beta iota.
    change (zseq (length (strains (one_individual n)))) with [0].
    cbn [foldM]. unfold strain_step.
    change (unchecked (strains (one_individual n)) 0) with (@Ok Z 1).
    cbv beta iota zeta. change (1 - 1) with 0.
    rewrite one_individual_first_row.
    destruct (scoring_loop _ _ _ _ _ _); reflexivity. }
  split.
  - intros fuel s. rewrite Hunfold.
    destruct (scoring_loop _ _ _ _ _ _) as [s2 | e s2] eqn:Hloop;
      [| discriminate].
    exfalso.
    exact (scoring_loop_no_exit (one_individual n) fuel 0 0 1 eq_refl
             eq_refl _ _ _ Hloop).
  - rewrite Hunfold.
    assert (Hloop := scoring_loop_exhausts (one_individual n) 0 0 1
              [0 + 4; 0 + 4; 0 + 4]%R (4 / 5) (3 / 20) 8 [0; 1; 1; 0]%R n
              eq_refl eq_refl (S n + k)%nat 0%nat 0
              [[0 + 4; 0 + 4; 0 + 4]]%R (Fin 0) 0 []).
    change (Z.of_nat 0) with 0 in Hloop.
    rewrite Hloop.
    + eexists. split; [reflexivity |]. cbn [scored ln_acc app skipn].
      split; [reflexivity |]. split; [reflexivity |].
      change (data (one_individual n)) with (repeat [4; 4; 4]%R n).
      rewrite map_repeat, (double_to_int_IZR 8).
      rewrite (three_exact_terms (4 / 5) (3 / 20) 8 4); try lra; try lia.
      rewrite fold_xadd_repeat_fin. f_equal. lra.
    + cbn. rewrite repeat_length. reflexivity.
    + lia.
    + reflexivity.
    + intros row Hrow. cbn [skipn] in Hrow.
      apply repeat_spec in Hrow. subst row. cbn. lia.
Qed.

Lemma mixed_types_rows (ta tb : Z) (fp8 fp : NumericVector) :
  assemble_fullPars (mixed_types ta tb) 0 8 = Ok fp8 ->
  assemble_fullPars (mixed_types ta tb) 0 9 = Ok fp ->
  foldM (exposure_step (constant_solver 4) (mixed_types ta tb) 0) [8; 9]
        (initial_locals (mixed_types ta tb))
  = Done (mkLocals [[0 + 4 + 4; 0 + 4 + 4; 0 + 4 + 4]]%R fp (Fin 0) 0 0 []).
Proof.
  intros H8 H9. cbn [foldM]. unfold exposure_step. rewrite H8.
  change (add_trajectory (results (initial_locals (mixed_types ta tb)))
            (index_model (initial_locals (mixed_types ta tb)))
            (constant_solver 4 fp8 (times (mixed_types ta tb))))
    with (@Ok NumericMatrix [[0 + 4; 0 + 4; 0 + 4]]%R).
  cbv beta iota. rewrite H9. reflexivity.
Qed.

Lemma mixed_types_unfold (ta tb : Z) (fuel : nat) (fp8 fp : NumericVector) :
  assemble_fullPars (mixed_types ta tb) 0 8 = Ok fp8 ->
  assemble_fullPars (mixed_types ta tb) 0 9 = Ok fp ->
  posterior_func_group_cpp (constant_solver 4) (mixed_types ta tb) fuel
  = match scoring_loop (mixed_types ta tb) fuel 0 0 0
            (mkLocals [[0 + 4 + 4; 0 + 4 + 4; 0 + 4 + 4]]%R fp
                      (Fin 0) 0 0 []) with
    | Done s2 =>
        Done (mkLocals (results s2) (fullPars s2) (ln_acc s2)
                (index_data s2) (index_model s2 + 1) (scored s2))
    | Stop err s2 => Stop err s2
    end.
Proof.
  intros H8 H9. unfold posterior_func_group_cpp.
  change (zseq (length (groups (mixed_types ta tb)))) with [0].
  cbn [foldM]. unfold group_step.
  change (unchecked (groups (mixed_types ta tb)) 0) with (@Ok Z 1).
  change (group_exposures (mixed_types ta tb) 0) with (@Ok (list Z) [8; 9]).
  cbv beta iota.
  change (zseq (length (strains (mixed_types ta tb)))) with [0].
  cbn [foldM]. unfold strain_step.
  change (unchecked (strains (mixed_types ta tb)) 0) with (@Ok Z 1).
  cbv beta iota zeta. change (1 - 1) with 0.
  rewrite (mixed_types_rows ta tb fp8 fp H8 H9).
  destruct (scoring_loop _ _ _ _ _ _); reflexivity.
Qed.

Lemma mixed_types_score (ta tb : Z) (k : nat) (fp8 : NumericVector)
  (S EA : R) :
  assemble_fullPars (mixed_types ta tb) 0 8 = Ok fp8 ->
  assemble_fullPars (mixed_types ta tb) 0 9 = Ok [S; EA; 10; 0; 1; 1; 0]%R ->
  (0 < S)%R ->
  posterior_func_group_cpp (constant_solver 4) (mixed_types ta tb) (2 + k)
  = Stop IndexOutOfBounds
      (mkLocals [[0 + 4 + 4; 0 + 4 + 4; 0 + 4 + 4]]%R
                [S; EA; 10; 0; 1; 1; 0]%R (Fin (3 * ln S)) 1 0 [(0, 0)]).
Proof.
  intros H8 H9 HS.
  rewrite (mixed_types_unfold ta tb (2 + k) fp8 _ H8 H9).
  assert (Hloop := scoring_loop_exhausts (mixed_types ta tb) 0 0 1
            [0 + 4 + 4; 0 + 4 + 4; 0 + 4 + 4]%R S EA 10 [0; 1; 1; 0]%R
            1%nat eq_refl eq_refl (2 + k)%nat 0%nat 0
            [[0 + 4 + 4; 0 + 4 + 4; 0 + 4 + 4]]%R (Fin 0) 0 [] eq_refl).
  change (Z.of_nat 0) with 0 in Hloop.
  rewrite Hloop.
  - f_equal. f_equal.
    change (skipn 0 (data (mixed_types ta tb))) with [[8; 8; 8]%R].
    cbn [map fold_left]. rewrite (double_to_int_IZR 10).
    rewrite (three_exact_terms S EA 10 8); try lra; try lia.
    cbn. f_equal. lra.
  - lia.
  - reflexivity.
  - intros row [<- | []]. cbn. lia.
Qed.

(** C3, as the claim states it, fails.  One group with one individual and
    two exposures of different types, whose kinetics blocks start
    [4/5, 3/20, 10] and [1/2, 3/20, 10]: with the exposures in the order
    (type 1, type 2) and in the order (type 2, type 1) the simulated results
    row and the data row are the same, yet the log-likelihood accumulated by
    the scoring call is [3 * ln (1/2)] in one case and [3 * ln (4/5)] in the
    other: it follows the parameters of the exposure assembled last. *)
Lemma score_differs_with_exposure_order :
  exists s12 s21 : locals,
    posterior_func_group_cpp (constant_solver 4) (mixed_types 1 2) 2
    = Stop IndexOutOfBounds s12
    /\ posterior_func_group_cpp (constant_solver 4) (mixed_types 2 1) 2
       = Stop IndexOutOfBounds s21
    /\ results s12 = results s21
    /\ data (mixed_types 1 2) = data (mixed_types 2 1)
    /\ scored s12 = [(0, 0)] /\ scored s21 = [(0, 0)]
    /\ fullPars s12 = [1 / 2; 3 / 20; 10; 0; 1; 1; 0]%R
    /\ fullPars s21 = [4 / 5; 3 / 20; 10; 0; 1; 1; 0]%R
    /\ ln_acc s12 = Fin (3 * ln (1 / 2))
    /\ ln_acc s21 = Fin (3 * ln (4 / 5))
    /\ ln_acc s12 <> ln_acc s21.
Proof.
  eexists. eexists.
  split.
  { apply (mixed_types_score 1 2 0 [4 / 5; 3 / 20; 10; 0; 1; 1; 0]%R
             (1 / 2) (3 / 20)); try reflexivity. lra. }
  split.
  { apply (mixed_types_score 2 1 0 [1 / 2; 3 / 20; 10; 0; 1; 1; 0]%R
             (4 / 5) (3 / 20)); try reflexivity. lra. }
  cbn [results scored fullPars ln_acc].
  repeat (split; [reflexivity |]).
  apply ln_distinct; lra.
Qed.

(** ** The parameters of a scoring call *)

Lemma rbind_ok {A B : Type} (r : result A) (k : A -> result B) (b : B) :
  rbind r k = Ok b -> exists x, r = Ok x /\ k x = Ok b.
Proof.
  destruct r as [x | e]; cbn; [| discriminate].
  intros H. exists x. split; [reflexivity | exact H].
Qed.

(** Section 4.3: the assembled vector is the kinetics block of the
    exposure's type, read through the type's index block, followed by the
    primed flag, the order modifier, the cross-reactivity and the infection
    time. *)
Lemma assemble_fullPars_shape (a : arguments) (strain e : Z)
  (fp : NumericVector) :
  assemble_fullPars a strain e = Ok fp ->
  exists (kinetics : NumericVector) (idx : list Z) (ty A B1 ip : Z)
         (mod_ cr t_i : R),
    unchecked (exposure_types a) e = Ok ty /\
    unchecked (par_lengths a) (ty - 1) = Ok A /\
    unchecked (par_lengths a) (ty - 1 + 1) = Ok B1 /\
    subset_range (par_type_ind a) A (B1 - 1) = Ok idx /\
    subset_indices (pars a) idx = Ok kinetics /\
    unchecked (exposure_primes a) e = Ok ip /\
    unchecked (pars a) e = Ok t_i /\
    fp = kinetics ++ [IZR ip; mod_; cr; t_i].
Proof.
  unfold assemble_fullPars. intros H.
  apply rbind_ok in H as [t_i [Ht H]].
  apply rbind_ok in H as [o [_ H]].
  apply rbind_ok in H as [es [_ H]].
  apply rbind_ok in H as [oi [_ H]].
  apply rbind_ok in H as [mod_ [_ H]].
  apply rbind_ok in H as [ip [Hip H]].
  apply rbind_ok in H as [cl [_ H]].
  apply rbind_ok in H as [ci [_ H]].
  apply rbind_ok in H as [cr [_ H]].
  apply rbind_ok in H as [ty [Hty H]].
  apply rbind_ok in H as [A [HA H]].
  apply rbind_ok in H as [B1 [HB H]].
  apply rbind_ok in H as [idx [Hidx H]].
  apply rbind_ok in H as [kinetics [Hk H]].
  injection H as <-.
  exists kinetics, idx, ty, A, B1, ip, mod_, cr, t_i.
  repeat split; assumption.
Qed.

(** C3, amended.  The scoring call passes [fullPars], the vector assembled
    for the exposure processed last (the kinetics block of that exposure's
    type followed by the primed flag, the order modifier, the
    cross-reactivity and the infection time), as the parameter argument of
    [obs_likelihood], which reads [S], [EA] and [MAX_TITRE] from its first
    three entries: the contribution of an individual is the sum of the log
    terms of the results row and the data row under those three entries,
    and depends on nothing else.  The scoring loop leaves [fullPars] as it
    is, so every individual of the pair is scored with the same entries. *)
Theorem scoring_reads_assembled_parameters
  (solver : NumericVector -> NumericVector -> NumericVector) (a : arguments)
  (strain e : Z) (s s1 : locals) (y d : list R) (S EA m : R)
  (rest : list R) :
  exposure_step solver a strain e s = Done s1 ->
  fullPars s1 = S :: EA :: m :: rest ->
  checked (results s1) (index_model s1) = Ok y ->
  checked (data a) (index_data s1) = Ok d ->
  (length y <= length d)%nat ->
  assemble_fullPars a strain e = Ok (fullPars s1)
  /\ (exists (kinetics : NumericVector) (isPrimed mod_ cr t_i : R),
        fullPars s1 = kinetics ++ [isPrimed; mod_; cr; t_i])
  /\ score_individual a s1
     = Done (mkLocals (results s1) (fullPars s1)
               (ln_acc s1
                + xsum (log_terms S EA (double_to_int m) y d))%X
               (index_data s1 + 1) (index_model s1)
               (scored s1 ++ [(index_model s1, index_data s1)]))
  /\ (forall (fuel : nat) (i j jj : Z),
        fullPars (final (scoring_loop a fuel i j jj s1)) = fullPars s1).
Proof.
  intros Hstep Hfp Hy Hd Hlen.
  destruct (exposure_step_done solver a strain e s s1 Hstep)
    as [fp [Hasm [_ [Hfp1 _]]]].
  split; [rewrite Hfp1; exact Hasm |]. split; [| split].
  - destruct (assemble_fullPars_shape a strain e fp Hasm)
      as [kinetics [idx [ty [A [B1 [ip [mod_ [cr [t_i H]]]]]]]]].
    exists kinetics, (IZR ip), mod_, cr, t_i. rewrite Hfp1. apply H.
  - unfold score_individual. rewrite Hy, Hd, Hfp.
    destruct (obs_likelihood_on_run y d S EA m rest Hlen) as [h' [Hrun _]].
    rewrite Hrun. reflexivity.
  - intros fuel i j jj. apply (scoring_loop_frame a fuel i j jj s1).
Qed.

Lemma scoring_reads_assembled_parameters_witness :
  assemble_fullPars (one_individual 1) 0 5
  = Ok (fullPars (mkLocals [[0 + 4; 0 + 4; 0 + 4]]%R
                    [4 / 5; 3 / 20; 8; 0; 1; 1; 0]%R (Fin 0) 0 0 []))
  /\ (exists (kinetics : NumericVector) (isPrimed mod_ cr t_i : R),
        fullPars (mkLocals [[0 + 4; 0 + 4; 0 + 4]]%R
                    [4 / 5; 3 / 20; 8; 0; 1; 1; 0]%R (Fin 0) 0 0 [])
        = kinetics ++ [isPrimed; mod_; cr; t_i])
  /\ score_individual (one_individual 1)
       (mkLocals [[0 + 4; 0 + 4; 0 + 4]]%R
          [4 / 5; 3 / 20; 8; 0; 1; 1; 0]%R (Fin 0) 0 0 [])
     = Done (mkLocals [[0 + 4; 0 + 4; 0 + 4]]%R
               [4 / 5; 3 / 20; 8; 0; 1; 1; 0]%R
               (Fin 0
                + xsum (log_terms (4 / 5) (3 / 20) (double_to_int 8)
                          [0 + 4; 0 + 4; 0 + 4]%R [4; 4; 4]%R))%X
               (0 + 1) 0 ([] ++ [(0, 0)]))
  /\ (forall (fuel : nat) (i j jj : Z),
        fullPars
          (final (scoring_loop (one_individual 1) fuel i j jj
                    (mkLocals [[0 + 4; 0 + 4; 0 + 4]]%R
                       [4 / 5; 3 / 20; 8; 0; 1; 1; 0]%R (Fin 0) 0 0 [])))
        = [4 / 5; 3 / 20; 8; 0; 1; 1; 0]%R).
Proof.
  apply (scoring_reads_assembled_parameters (constant_solver 4)
           (one_individual 1) 0 5 (initial_locals (one_individual 1))
           (mkLocals [[0 + 4; 0 + 4; 0 + 4]]%R
              [4 / 5; 3 / 20; 8; 0; 1; 1; 0]%R (Fin 0) 0 0 [])
           [0 + 4; 0 + 4; 0 + 4]%R [4; 4; 4]%R (4 / 5) (3 / 20) 8
           [0; 1; 1; 0]%R).
  - reflexivity.
  - reflexivity.
  - reflexivity.
  - reflexivity.
  - simpl. lia.
Defined.


(** ** Accumulation into the results matrix *)

Lemma add_prefix_length (row y : list R) :
  length (add_prefix row y) = length row.
Proof.
  revert y. induction row as [| r row IH]; intros [| v y]; cbn;
    try reflexivity. rewrite IH. reflexivity.
Qed.

Lemma add_prefix_nth (row y : list R) (c : nat) :
  (length y <= length row)%nat ->
  nth c (add_prefix row y) 0%R = (nth c row 0 + nth c y 0)%R.
Proof.
  revert y c. induction row as [| r row IH]; intros [| v y] c Hlen;
    cbn in Hlen |- *.
  - destruct c; lra.
  - lia.
  - destruct c; lra.
  - destruct c as [| c]; [reflexivity |]. apply IH. lia.
Qed.

Lemma set_nth_same {A : Type} (i : nat) (x : A) (v : list A) :
  (i < length v)%nat -> nth_error (set_nth i x v) i = Some x.
Proof.
  revert i. induction v as [| z v IH]; intros [| i] H; cbn in H |- *;
    try lia; [reflexivity |]. apply IH. lia.
Qed.

Lemma set_nth_other {A : Type} (i k : nat) (x : A) (v : list A) :
  k <> i -> nth_error (set_nth i x v) k = nth_error v k.
Proof.
  revert i k. induction v as [| z v IH]; intros [| i] [| k] H; cbn;
    try reflexivity; try congruence. apply IH. congruence.
Qed.

Lemma add_trajectory_ok (m m' : NumericMatrix) (row : nat) (y : list R) :
  add_trajectory m (Z.of_nat row) y = Ok m' ->
  exists r,
    nth_error m row = Some r /\ (length y <= length r)%nat /\
    m' = set_nth row (add_prefix r y) m.
Proof.
  unfold add_trajectory, unchecked. rewrite elem_of_nat.
  destruct (nth_error m row) as [r |] eqn:Hr; cbn [rbind]; [| discriminate].
  destruct (Nat.leb_spec (length y) (length r)) as [Hle | Hgt];
    [| discriminate].
  rewrite Nat2Z.id. intros Heq. injection Heq as <-.
  exists r. repeat split. exact Hle.
Qed.

Section Accumulation.

Variable solver : NumericVector -> NumericVector -> NumericVector.
Variable a : arguments.

(** One exposure adds its trajectory to the current row and touches no
    other row. *)
Lemma exposure_step_row (strain e : Z) (m : nat) (s s' : locals) :
  exposure_step solver a strain e s = Done s' ->
  index_model s = Z.of_nat m ->
  exists fp r0,
    assemble_fullPars a strain e = Ok fp /\
    nth_error (results s) m = Some r0 /\
    (length (solver fp (times a)) <= length r0)%nat /\
    nth_error (results s') m = Some (add_prefix r0 (solver fp (times a))) /\
    index_model s' = Z.of_nat m /\
    length (results s') = length (results s) /\
    (forall r, r <> m -> nth_error (results s') r = nth_error (results s) r).
Proof.
  intros Hstep Hm.
  destruct (exposure_step_done solver a strain e s s' Hstep)
    as [fp [Hfp [Hadd [_ [_ [_ [Him _]]]]]]].
  rewrite Hm in Hadd.
  destruct (add_trajectory_ok _ _ _ _ Hadd) as [r0 [Hr0 [Hlen Hres]]].
  exists fp, r0. rewrite Hres. repeat split; try assumption.
  - apply set_nth_same. apply nth_error_Some. congruence.
  - congruence.
  - apply set_nth_length.
  - intros r Hr. apply set_nth_other. exact Hr.
Qed.

(** The loop over the exposures of a group: the current row receives the
    element-wise sum of the trajectories of the exposures. *)
Lemma exposures_accumulate (strain : Z) (m : nat) (tmp : list Z) :
  forall (s s' : locals) (r0 : list R),
    foldM (exposure_step solver a strain) tmp s = Done s' ->
    index_model s = Z.of_nat m ->
    nth_error (results s) m = Some r0 ->
    exists fps row,
      mapM (assemble_fullPars a strain) tmp = Ok fps /\
      index_model s' = Z.of_nat m /\
      nth_error (results s') m = Some row /\
      length row = length r0 /\
      (forall c : nat,
         nth c row 0%R
         = (nth c r0 0
            + Rsum (map (fun fp => nth c (solver fp (times a)) 0) fps))%R).
Proof.
  induction tmp as [| e tmp IH]; intros s s' r0 Hrun Hm Hr0.
  - cbn in Hrun. injection Hrun as <-.
    exists [], r0. cbn. repeat split; try assumption.
    intros c. lra.
  - cbn [foldM] in Hrun.
    destruct (exposure_step solver a strain e s) as [s1 | err s1] eqn:Hstep;
      [| discriminate].
    destruct (exposure_step_row strain e m s s1 Hstep Hm)
      as [fp [r0' [Hfp [Hr0' [Hlen [Hrow [Hm1 _]]]]]]].
    assert (r0' = r0) by congruence. subst r0'.
    destruct (IH s1 s' _ Hrun Hm1 Hrow) as [fps [row [Hfps [Hm' [Hrow' [Hl Hsum]]]]]].
    exists (fp :: fps), row. cbn [mapM]. rewrite Hfp, Hfps. cbn [rbind].
    repeat split; try assumption.
    + rewrite Hl. apply add_prefix_length.
    + intros c. rewrite Hsum, add_prefix_nth by exact Hlen.
      cbn [map Rsum fold_right]. unfold Rsum. lra.
Qed.

Lemma exposures_frame (strain : Z) (m : nat) (tmp : list Z) (s s' : locals) :
  foldM (exposure_step solver a strain) tmp s = Done s' ->
  index_model s = Z.of_nat m ->
  index_model s' = Z.of_nat m /\
  length (results s') = length (results s) /\
  (forall r, r <> m -> nth_error (results s') r = nth_error (results s) r).
Proof.
  intros Hrun Hm.
  pose (P := fun t : locals =>
               index_model t = Z.of_nat m /\
               length (results t) = length (results s) /\
               (forall r, r <> m ->
                          nth_error (results t) r = nth_error (results s) r)).
  refine (foldM_invariant P _ _ _ _ _ _ Hrun).
  - intros e t t' [Ht1 [Ht2 Ht3]] Hstep.
    destruct (exposure_step_row strain e m t t' Hstep Ht1)
      as [fp [r0 [_ [_ [_ [_ [Hm' [Hl Hoth]]]]]]]].
    unfold P. repeat split.
    + exact Hm'.
    + congruence.
    + intros r Hr. rewrite (Hoth r Hr). apply Ht3. exact Hr.
  - unfold P. repeat split. exact Hm.
Qed.

Lemma strain_step_fresh (fuel : nat) (i : Z) (tmp : list Z) (j : Z) (m : nat)
  (s s' : locals) :
  strain_step solver a fuel i tmp j s = Done s' ->
  rows_fresh_from a m s -> rows_fresh_from a (S m) s'.
Proof.
  unfold strain_step. intros Hstep [Hm [Hlen Hz]].
  destruct (unchecked (strains a) j) as [sj | e]; [| discriminate].
  destruct (foldM _ tmp s) as [s1 | e s1] eqn:Hexp; [| discriminate].
  destruct (scoring_loop a fuel i j 0 s1) as [s2 | e s2] eqn:Hsc;
    [| discriminate].
  injection Hstep as <-.
  destruct (scoring_loop_done a fuel i j 0 s1 s2 Hsc) as [-> _].
  destruct (exposures_frame _ m tmp s s1 Hexp Hm) as [Hm1 [Hl1 Hoth]].
  unfold rows_fresh_from. cbn [index_model results]. repeat split.
  - lia.
  - congruence.
  - intros r Hr. rewrite Hoth by lia. apply Hz. lia.
Qed.

Lemma group_step_fresh (fuel : nat) (i : Z) (m : nat) (s s' : locals) :
  group_step solver a fuel i s = Done s' ->
  rows_fresh_from a m s ->
  rows_fresh_from a (m + length (strains a)) s'.
Proof.
  unfold group_step. intros Hstep Hfresh.
  destruct (unchecked (groups a) i); [| discriminate].
  destruct (group_exposures a i) as [tmp | e]; [| discriminate].
  refine (foldM_zseq_invariant (fun k t => rows_fresh_from a (m + k) t)
            _ _ _ _ _ _ Hstep).
  - intros k t t' _ Ht Hk. rewrite Nat.add_succ_r.
    exact (strain_step_fresh fuel i tmp _ _ t t' Hk Ht).
  - rewrite Nat.add_0_r. exact Hfresh.
Qed.

Lemma initial_locals_fresh : rows_fresh_from a 0 (initial_locals a).
Proof.
  unfold rows_fresh_from, initial_locals. cbn [index_model results].
  rewrite repeat_length. repeat split.
  intros r Hr. apply nth_error_repeat. lia.
Qed.

Lemma groups_prefix_fresh (fuel : nat) (i : nat) (s : locals) :
  foldM (group_step solver a fuel) (zseq i) (initial_locals a) = Done s ->
  rows_fresh_from a (i * length (strains a)) s.
Proof.
  intros Hrun.
  refine (foldM_zseq_invariant
            (fun k t => rows_fresh_from a (k * length (strains a)) t)
            _ _ _ _ _ _ Hrun).
  - intros k t t' _ Ht Hk.
    replace (S k * length (strains a))%nat
      with (k * length (strains a) + length (strains a))%nat by lia.
    exact (group_step_fresh fuel _ _ t t' Hk Ht).
  - exact initial_locals_fresh.
Qed.

End Accumulation.

(** C9. In a run of [posterior_func_group_cpp], take the (group, strain)
    pair [(i, j)]: the state [s_ij] in which its turn starts is the one the
    loops reach after the groups before [i] and the strains before [j].
    When the loop over the exposures of the group ends (state [s']), the row
    of [results] that the scoring calls of the pair read, row
    [i * strains.size() + j], started at all zeros and holds, at every time
    index, the sum over the exposures of the group of the solver's
    trajectory for that exposure, and nothing else; with two exposures it
    is the element-wise sum of the two trajectories.  The scoring loop does
    not change that row. *)
Theorem results_row_is_superposition
  (solver : NumericVector -> NumericVector -> NumericVector) (a : arguments)
  (fuel i j : nat) (s_i s_ij s' : locals) (tmp : list Z) (sj : Z) :
  (i < length (groups a))%nat -> (j < length (strains a))%nat ->
  foldM (group_step solver a fuel) (zseq i) (initial_locals a) = Done s_i ->
  group_exposures a (Z.of_nat i) = Ok tmp ->
  foldM (strain_step solver a fuel (Z.of_nat i) tmp) (zseq j) s_i
  = Done s_ij ->
  unchecked (strains a) (Z.of_nat j) = Ok sj ->
  foldM (exposure_step solver a (sj - 1)) tmp s_ij = Done s' ->
  exists (fps : list NumericVector) (row : list R),
    mapM (assemble_fullPars a (sj - 1)) tmp = Ok fps /\
    nth_error (results s_ij) (i * length (strains a) + j)
    = Some (repeat 0%R (length (times a))) /\
    index_model s' = Z.of_nat (i * length (strains a) + j) /\
    checked (results s') (index_model s') = Ok row /\
    length row = length (times a) /\
    (forall c : nat,
       nth c row 0%R
       = Rsum (map (fun fp => nth c (solver fp (times a)) 0%R) fps)) /\
    (forall fp1 fp2 : NumericVector,
       fps = [fp1; fp2] ->
       forall c : nat,
         nth c row 0%R
         = (nth c (solver fp1 (times a)) 0
            + nth c (solver fp2 (times a)) 0)%R) /\
    (forall (fuel' : nat) (jj : Z),
       results (final (scoring_loop a fuel' (Z.of_nat i) (Z.of_nat j) jj s'))
       = results s' /\
       index_model
         (final (scoring_loop a fuel' (Z.of_nat i) (Z.of_nat j) jj s'))
       = index_model s').
Proof.
  intros Hi Hj Hgroups Htmp Hstrains Hsj Hexp.
  assert (Hfi := groups_prefix_fresh solver a fuel i s_i Hgroups).
  assert (Hfij : rows_fresh_from a (i * length (strains a) + j) s_ij).
  { refine (foldM_zseq_invariant
              (fun k t => rows_fresh_from a (i * length (strains a) + k) t)
              _ _ _ _ _ _ Hstrains).
    - intros k t t' _ Ht Hk. rewrite Nat.add_succ_r.
      exact (strain_step_fresh solver a fuel _ tmp _ _ t t' Hk Ht).
    - rewrite Nat.add_0_r. exact Hfi. }
  destruct Hfij as [Hm [Hlen Hz]].
  assert (Hrow0 : nth_error (results s_ij) (i * length (strains a) + j)
                  = Some (repeat 0%R (length (times a)))).
  { apply Hz. rewrite Hlen. nia. }
  destruct (exposures_accumulate solver a (sj - 1) _ tmp s_ij s' _
              Hexp Hm Hrow0) as [fps [row [Hfps [Hm' [Hrow [Hl Hsum]]]]]].
  assert (Hsum' : forall c : nat,
            nth c row 0%R
            = Rsum (map (fun fp => nth c (solver fp (times a)) 0%R) fps)).
  { intros c. rewrite Hsum, nth_repeat. lra. }
  exists fps, row. repeat split; try assumption.
  - rewrite Hm'. apply checked_of_nat. exact Hrow.
  - rewrite Hl. apply repeat_length.
  - intros fp1 fp2 -> c. rewrite Hsum'. cbn. lra.
  - apply scoring_loop_frame.
  - apply scoring_loop_frame.
Qed.

Lemma results_row_is_superposition_witness :
  exists (fps : list NumericVector) (row : list R),
    mapM (assemble_fullPars two_exposures (1 - 1)) [5; 6] = Ok fps /\
    nth_error (results (initial_locals two_exposures))
              (0 * length (strains two_exposures) + 0)
    = Some (repeat 0%R (length (times two_exposures))) /\
    index_model
      (mkLocals [[0 + 4 + 4; 0 + 4 + 4; 0 + 4 + 4]]%R
                [4 / 5; 3 / 20; 8; 0; 1; 1; 0]%R (Fin 0) 0 0 [])
    = Z.of_nat (0 * length (strains two_exposures) + 0) /\
    checked
      (results
         (mkLocals [[0 + 4 + 4; 0 + 4 + 4; 0 + 4 + 4]]%R
                   [4 / 5; 3 / 20; 8; 0; 1; 1; 0]%R (Fin 0) 0 0 []))
      (index_model
         (mkLocals [[0 + 4 + 4; 0 + 4 + 4; 0 + 4 + 4]]%R
                   [4 / 5; 3 / 20; 8; 0; 1; 1; 0]%R (Fin 0) 0 0 []))
    = Ok row /\
    length row = length (times two_exposures) /\
    (forall c : nat,
       nth c row 0%R
       = Rsum (map (fun fp =>
                      nth c (constant_solver 4 fp (times two_exposures)) 0%R)
                   fps)) /\
    (forall fp1 fp2 : NumericVector,
       fps = [fp1; fp2] ->
       forall c : nat,
         nth c row 0%R
         = (nth c (constant_solver 4 fp1 (times two_exposures)) 0
            + nth c (constant_solver 4 fp2 (times two_exposures)) 0)%R) /\
    (forall (fuel' : nat) (jj : Z),
       results
         (final (scoring_loop two_exposures fuel' (Z.of_nat 0) (Z.of_nat 0) jj
                   (mkLocals [[0 + 4 + 4; 0 + 4 + 4; 0 + 4 + 4]]%R
                             [4 / 5; 3 / 20; 8; 0; 1; 1; 0]%R (Fin 0) 0 0 [])))
       = results
           (mkLocals [[0 + 4 + 4; 0 + 4 + 4; 0 + 4 + 4]]%R
                     [4 / 5; 3 / 20; 8; 0; 1; 1; 0]%R (Fin 0) 0 0 []) /\
       index_model
         (final (scoring_loop two_exposures fuel' (Z.of_nat 0) (Z.of_nat 0) jj
                   (mkLocals [[0 + 4 + 4; 0 + 4 + 4; 0 + 4 + 4]]%R
                             [4 / 5; 3 / 20; 8; 0; 1; 1; 0]%R (Fin 0) 0 0 [])))
       = index_model
           (mkLocals [[0 + 4 + 4; 0 + 4 + 4; 0 + 4 + 4]]%R
                     [4 / 5; 3 / 20; 8; 0; 1; 1; 0]%R (Fin 0) 0 0 [])).
Proof.
  apply (results_row_is_superposition (constant_solver 4) two_exposures
           1%nat 0%nat 0%nat (initial_locals two_exposures)
           (initial_locals two_exposures)
           (mkLocals [[0 + 4 + 4; 0 + 4 + 4; 0 + 4 + 4]]%R
                     [4 / 5; 3 / 20; 8; 0; 1; 1; 0]%R (Fin 0) 0 0 [])
           [5; 6] 1).
  - simpl. lia.
  - simpl. lia.
  - reflexivity.
  - reflexivity.
  - reflexivity.
  - reflexivity.
  - reflexivity.
Defined.

(** * Further properties of the three functions *)

(** ** [obs_error] *)

(** The kernel does not distinguish the believed from the observed titre. *)
Theorem obs_error_symmetric (actual obs : Z) (S EA : R) (M : Z) :
  obs_error actual obs S EA M = obs_error obs actual S EA M.
Proof.
  rewrite !obs_error_cases. eqb_cases; try reflexivity; lia.
Qed.

(** Away from the two boundary bins the kernel is a function of the
    distance between the two titres: titres outside [[0, MAX_TITRE]] are
    scored like any others. *)
Theorem obs_error_by_distance (a o a' o' : Z) (S EA : R) (M : Z) :
  ~ (a = o /\ (a = 0 \/ a = M)) ->
  ~ (a' = o' /\ (a' = 0 \/ a' = M)) ->
  Z.abs (a - o) = Z.abs (a' - o') ->
  obs_error a o S EA M = obs_error a' o' S EA M.
Proof.
  assert (Hoff : forall x y : Z,
            ~ (x = y /\ (x = 0 \/ x = M)) ->
            obs_error x y S EA M
            = if Z.abs (x - y) =? 0 then Fin S
              else if Z.abs (x - y) =? 1 then (Fin EA / Fin 2)%X
              else residual_mass S EA M).
  { intros x y Hxy. rewrite obs_error_cases.
    destruct (Z.eqb_spec x M), (Z.eqb_spec y M), (Z.eqb_spec x 0),
      (Z.eqb_spec y 0), (Z.eqb_spec x y), (Z.eqb_spec x (y + 1)),
      (Z.eqb_spec x (y - 1)), (Z.eqb_spec (Z.abs (x - y)) 0),
      (Z.eqb_spec (Z.abs (x - y)) 1);
      cbn [andb orb]; try reflexivity; try lia; exfalso; apply Hxy; lia. }
  intros Hb Hb' Hd. rewrite (Hoff a o Hb), (Hoff a' o' Hb'), Hd.
  reflexivity.
Qed.

Lemma obs_error_by_distance_witness :
  obs_error 3 5 (4 / 5) (3 / 20) 8 = obs_error (-1) 1 (4 / 5) (3 / 20) 8.
Proof.
  apply (obs_error_by_distance 3 5 (-1) 1 (4 / 5) (3 / 20) 8); lia.
Defined.

(** With [MAX_TITRE = 2] the residual mass divides by zero: for two titres
    at least two apart the value is not a finite number; it is plus
    infinity when [S + EA < 1], NaN when [S + EA = 1] and minus infinity
    when [S + EA > 1]. *)
Theorem obs_error_max_titre_two (actual obs : Z) (S EA : R) :
  2 <= Z.abs (actual - obs) ->
  ~ finite (obs_error actual obs S EA 2)
  /\ ((S + EA < 1)%R -> obs_error actual obs S EA 2 = PInf)
  /\ ((S + EA = 1)%R -> obs_error actual obs S EA 2 = NaN)
  /\ ((1 < S + EA)%R -> obs_error actual obs S EA 2 = NInf).
Proof.
  intros Hd.
  assert (Hval : obs_error actual obs S EA 2
                 = signed_inf (Rsign (1 - S - EA))).
  { rewrite obs_error_cases.
    destruct (Z.eqb_spec actual 2), (Z.eqb_spec obs 2),
      (Z.eqb_spec actual 0), (Z.eqb_spec obs 0), (Z.eqb_spec actual obs),
      (Z.eqb_spec actual (obs + 1)), (Z.eqb_spec actual (obs - 1));
      cbn [andb orb]; try lia.
    all: unfold residual_mass; rewrite !xsub_fin.
    all: replace (2 - 2)%R with 0%R by lra.
    all: unfold xdiv; rewrite Rsign_zero, (Rsign_pos 1) by lra.
    all: reflexivity. }
  rewrite Hval. unfold Rsign.
  destruct (total_order_T (1 - S - EA) 0) as [[H | H] | H]; cbn;
    repeat split; intros; try tauto; try reflexivity; lra.
Qed.

Lemma obs_error_max_titre_two_witness :
  ~ finite (obs_error 0 2 (4 / 5) (3 / 20) 2)
  /\ ((4 / 5 + 3 / 20 < 1)%R -> obs_error 0 2 (4 / 5) (3 / 20) 2 = PInf)
  /\ ((4 / 5 + 3 / 20 = 1)%R -> obs_error 0 2 (4 / 5) (3 / 20) 2 = NaN)
  /\ ((1 < 4 / 5 + 3 / 20)%R -> obs_error 0 2 (4 / 5) (3 / 20) 2 = NInf).
Proof. apply (obs_error_max_titre_two 0 2 (4 / 5) (3 / 20)). lia. Defined.

(** ** [obs_likelihood] *)

Lemma clamp_idempotent (M : Z) (v : R) : clamp M (clamp M v) = clamp M v.
Proof.
  unfold clamp.
  destruct (Rlt_dec v 0) as [H1 | H1].
  - destruct (Rge_dec 0 (IZR M)) as [H2 | H2].
    + destruct (Rlt_dec (IZR M) 0) as [H3 | H3].
      * destruct (Rge_dec 0 (IZR M)); [reflexivity | lra].
      * destruct (Rge_dec (IZR M) (IZR M)); [reflexivity | lra].
    + destruct (Rlt_dec 0 0) as [H3 | H3]; [lra |].
      destruct (Rge_dec 0 (IZR M)); [lra | reflexivity].
  - destruct (Rge_dec v (IZR M)) as [H2 | H2].
    + destruct (Rlt_dec (IZR M) 0) as [H3 | H3].
      * destruct (Rge_dec 0 (IZR M)); [reflexivity | lra].
      * destruct (Rge_dec (IZR M) (IZR M)); [reflexivity | lra].
    + destruct (Rlt_dec v 0) as [H3 | H3]; [lra |].
      destruct (Rge_dec v (IZR M)); [lra | reflexivity].
Qed.

(** A second call on the store the first call leaves returns the same value
    and changes nothing: the clamped vector is a fixed point. *)
Theorem obs_likelihood_twice
  (y data params : handle) (h h1 : store) (v1 : xdouble) (S EA m : R)
  (rest : list R) :
  y <> data -> y <> params ->
  (length (h y) <= length (h data))%nat ->
  h params = S :: EA :: m :: rest ->
  obs_likelihood y data params h = Done (h1, v1) ->
  exists h2 : store,
    obs_likelihood y data params h1 = Done (h2, v1)
    /\ forall w : handle, h2 w = h1 w.
Proof.
  intros Hyd Hyp Hlen Hp Hrun.
  destruct (obs_likelihood_run y data params h S EA m rest Hyd Hyp Hlen Hp)
    as [h' [Hrun' [Hy Hfr]]].
  rewrite Hrun' in Hrun. injection Hrun as <- <-.
  assert (Hd1 : h' data = h data) by (apply Hfr; congruence).
  assert (Hp1 : h' params = h params) by (apply Hfr; congruence).
  destruct (obs_likelihood_run y data params h' S EA m rest Hyd Hyp)
    as [h2 [Hrun2 [Hy2 Hfr2]]].
  - rewrite Hy, Hd1, length_map. exact Hlen.
  - rewrite Hp1. exact Hp.
  - exists h2. split.
    + rewrite Hrun2, Hy, Hd1.
      rewrite (log_terms_map S EA (double_to_int m)
                 (clamp (double_to_int m)) (h y) (h data)
                 (clamp_idempotent (double_to_int m))).
      reflexivity.
    + intros w. destruct (Nat.eq_dec w y) as [-> | Hw].
      * rewrite Hy2, Hy, map_map.
        apply map_ext. intros b. apply clamp_idempotent.
      * apply Hfr2. exact Hw.
Qed.

Lemma obs_likelihood_twice_witness :
  exists h2 : store,
    obs_likelihood 0%nat 1%nat 2%nat
      (fst (final (obs_likelihood 0%nat 1%nat 2%nat
                     (fresh_store [-3; 9]%R [0; 5]%R [4 / 5; 3 / 20; 5]%R))))
    = Done (h2,
            snd (final (obs_likelihood 0%nat 1%nat 2%nat
                          (fresh_store [-3; 9]%R [0; 5]%R
                             [4 / 5; 3 / 20; 5]%R))))
    /\ forall w : handle,
         h2 w
         = fst (final (obs_likelihood 0%nat 1%nat 2%nat
                         (fresh_store [-3; 9]%R [0; 5]%R
                            [4 / 5; 3 / 20; 5]%R))) w.
Proof.
  apply (obs_likelihood_twice 0%nat 1%nat 2%nat
           (fresh_store [-3; 9]%R [0; 5]%R [4 / 5; 3 / 20; 5]%R)
           _ _ (4 / 5) (3 / 20) 5 []).
  - discriminate.
  - discriminate.
  - simpl. lia.
  - reflexivity.
  - destruct (obs_likelihood_run 0%nat 1%nat 2%nat
                (fresh_store [-3; 9]%R [0; 5]%R [4 / 5; 3 / 20; 5]%R)
                (4 / 5) (3 / 20) 5 []) as [h' [Hrun _]].
    + discriminate.
    + discriminate.
    + simpl. lia.
    + reflexivity.
    + rewrite Hrun. reflexivity.
Defined.

Lemma kernel_feasible (actual obs : Z) (S EA : R) (M : Z) :
  (0 < S)%R -> (0 < EA)%R -> (S + EA < 1)%R -> 3 <= M ->
  (0 < boundary S EA M)%R ->
  (0 < kernel actual obs S EA M <= 1)%R.
Proof.
  intros HS HEA HSEA HM Hb.
  assert (HM3 : (3 <= IZR M)%R) by (apply IZR_le in HM; exact HM).
  assert (H0 : (0 < 1 / (IZR M - 2) <= 1)%R).
  { split.
    - apply Rdiv_lt_0_compat; lra.
    - apply Rmult_le_reg_r with (IZR M - 2)%R; [lra |].
      unfold Rdiv. rewrite Rmult_assoc, Rinv_l by lra. lra. }
  assert (Hr : (0 < residual S EA M <= 1 - S - EA)%R).
  { unfold residual. split; [apply Rmult_lt_0_compat; lra | nra]. }
  unfold kernel. unfold boundary in *.
  eqb_cases; lra.
Qed.

Lemma ln_nonpositive (x : R) : (0 < x <= 1)%R -> (ln x <= 0)%R.
Proof.
  intros [H0 H1]. destruct (Req_dec x 1) as [-> | Hne].
  - rewrite ln_1. lra.
  - rewrite <- ln_1. apply Rlt_le, ln_increasing; lra.
Qed.

Lemma log_terms_feasible (S EA : R) (M : Z) (y d : list R) :
  (0 < S)%R -> (0 < EA)%R -> (S + EA < 1)%R -> 3 <= M ->
  (0 < boundary S EA M)%R ->
  forall acc : R,
  exists v : R,
    fold_left xadd (log_terms S EA M y d) (Fin acc) = Fin v /\ (v <= acc)%R.
Proof.
  intros HS HEA HSEA HM Hb. revert d.
  induction y as [| b y IH]; intros d acc.
  - exists acc. split; [reflexivity | lra].
  - destruct d as [| o d]; [exists acc; split; [reflexivity | lra] |].
    cbn [log_terms fold_left]. unfold log_term.
    rewrite obs_error_fin by lia.
    destruct (kernel_feasible (Zfloor (clamp M b)) (Zfloor o) S EA M
                HS HEA HSEA HM Hb) as [Hk0 Hk1].
    cbn [xlog]. rewrite (Rsign_pos _ Hk0). cbn [xadd].
    destruct (IH d (acc + ln (kernel (Zfloor (clamp M b)) (Zfloor o) S EA M))%R)
      as [v [Hv Hle]].
    exists v. split; [exact Hv |].
    assert (Hln := ln_nonpositive _ (conj Hk0 Hk1)). lra.
Qed.

(** With feasible observation-error parameters ([S], [EA] positive,
    [S + EA < 1], [MAX_TITRE >= 3] and a positive boundary mass) the value
    returned on paired sequences is a finite number that is at most zero,
    whatever the believed and observed values are. *)
Theorem obs_likelihood_feasible
  (y data params : handle) (h : store) (S EA m : R) (rest : list R) :
  y <> data -> y <> params ->
  (length (h y) <= length (h data))%nat ->
  h params = S :: EA :: m :: rest ->
  (0 < S)%R -> (0 < EA)%R -> (S + EA < 1)%R -> 3 <= double_to_int m ->
  (0 < boundary S EA (double_to_int m))%R ->
  exists (h' : store) (v : R),
    obs_likelihood y data params h = Done (h', Fin v) /\ (v <= 0)%R.
Proof.
  intros Hyd Hyp Hlen Hp HS HEA HSEA HM Hb.
  destruct (obs_likelihood_run y data params h S EA m rest Hyd Hyp Hlen Hp)
    as [h' [Hrun _]].
  destruct (log_terms_feasible S EA (double_to_int m) (h y) (h data)
              HS HEA HSEA HM Hb 0) as [v [Hv Hle]].
  exists h', v. split; [| exact Hle].
  rewrite Hrun. unfold xsum. rewrite Hv. reflexivity.
Qed.

Lemma obs_likelihood_feasible_witness :
  exists (h' : store) (v : R),
    obs_likelihood 0%nat 1%nat 2%nat
      (fresh_store [-3; 9; 2]%R [0; 5; 12]%R [4 / 5; 3 / 20; 8]%R)
    = Done (h', Fin v) /\ (v <= 0)%R.
Proof.
  apply (obs_likelihood_feasible 0%nat 1%nat 2%nat
           (fresh_store [-3; 9; 2]%R [0; 5; 12]%R [4 / 5; 3 / 20; 8]%R)
           (4 / 5) (3 / 20) 8 []).
  - discriminate.
  - discriminate.
  - simpl. lia.
  - reflexivity.
  - lra.
  - lra.
  - lra.
  - rewrite (double_to_int_IZR 8). lia.
  - rewrite (double_to_int_IZR 8). unfold boundary, residual. lra.
Defined.

(** One turn of the loop at a position the observed vector does not have:
    the believed value is clamped before the access to [data(i)] throws. *)
Lemma obs_likelihood_body_throws
  (y data params : handle) (M : Z) (h : store) (acc : xdouble)
  (pre suf : list R) (b : R) :
  y <> data ->
  h y = pre ++ b :: suf ->
  nth_error (h data) (length pre) = None ->
  exists h' : store,
    obs_likelihood_body y data params M (Z.of_nat (length pre)) (h, acc)
    = Stop IndexOutOfBounds (h', acc)
    /\ h' y = pre ++ clamp M b :: suf
    /\ (forall w, w <> y -> h' w = h w).
Proof.
  intros Hyd Hy Hd.
  assert (Hd' : data <> y) by congruence.
  unfold obs_likelihood_body, clamp.
  unfold checked at 1. rewrite elem_of_nat, Hy, nth_error_middle.
  cbn [bindStop].
  destruct (Rlt_dec b 0) as [Hb | Hb].
  - rewrite (assign_middle h y pre suf b 0 Hy). cbn [bindStop].
    unfold checked at 1.
    rewrite elem_of_nat, store_set_same, nth_error_middle. cbn [bindStop].
    destruct (Rge_dec 0 (IZR M)) as [HM | HM].
    + rewrite (assign_middle _ y pre suf 0 (IZR M) (store_set_same _ _ _)).
      cbn [bindStop]. unfold checked.
      rewrite !elem_of_nat, store_set_same, nth_error_middle.
      rewrite !(store_set_other _ y data) by assumption.
      rewrite Hd. cbn [bindStop].
      eexists. split; [reflexivity |]. split.
      * apply store_set_same.
      * intros w Hw. rewrite !store_set_other by assumption. reflexivity.
    + cbn [bindStop]. unfold checked.
      rewrite !elem_of_nat, store_set_same, nth_error_middle.
      rewrite !(store_set_other _ y data) by assumption.
      rewrite Hd. cbn [bindStop].
      eexists. split; [reflexivity |]. split.
      * apply store_set_same.
      * intros w Hw. rewrite !store_set_other by assumption. reflexivity.
  - cbn [bindStop]. unfold checked at 1.
    rewrite elem_of_nat, Hy, nth_error_middle. cbn [bindStop].
    destruct (Rge_dec b (IZR M)) as [HM | HM].
    + rewrite (assign_middle h y pre suf b (IZR M) Hy).
      cbn [bindStop]. unfold checked.
      rewrite !elem_of_nat, store_set_same, nth_error_middle.
      rewrite !(store_set_other _ y data) by assumption.
      rewrite Hd. cbn [bindStop].
      eexists. split; [reflexivity |]. split.
      * apply store_set_same.
      * intros w Hw. rewrite !store_set_other by assumption. reflexivity.
    + cbn [bindStop]. unfold checked.
      rewrite !elem_of_nat, Hy, nth_error_middle, Hd. cbn [bindStop].
      eexists. split; [reflexivity |]. split.
      * exact Hy.
      * intros w Hw. reflexivity.
Qed.

(** The loop over a segment [mid] of the believed vector that the observed
    vector covers. *)
Lemma obs_likelihood_loop_segment
  (y data params : handle) (M : Z) (S EA : R) (rest : list R)
  (mid tail : list R) :
  y <> data -> y <> params ->
  forall (pre : list R) (h : store) (acc : xdouble),
    h y = pre ++ mid ++ tail ->
    (length pre + length mid <= length (h data))%nat ->
    h params = S :: EA :: rest ->
    exists h' : store,
      foldM (obs_likelihood_body y data params M)
            (map Z.of_nat (seq (length pre) (length mid))) (h, acc)
      = Done (h', fold_left xadd
                    (log_terms S EA M mid (skipn (length pre) (h data))) acc)
      /\ h' y = pre ++ map (clamp M) mid ++ tail
      /\ (forall w, w <> y -> h' w = h w).
Proof.
  intros Hyd Hyp.
  induction mid as [| b mid IH]; intros pre h acc Hy Hlen Hp.
  - exists h. cbn [length seq map foldM log_terms fold_left].
    split; [reflexivity |]. split; [exact Hy |].
    intros w Hw. reflexivity.
  - cbn [length] in Hlen.
    destruct (skipn_cons_nth (h data) (length pre)) as [d [Hd Hsk]]; [lia |].
    destruct (obs_likelihood_body_step y data params M h acc pre
                (mid ++ tail) b d S EA rest Hyd Hyp Hy Hd Hp)
      as [h1 [Hstep [Hy1 Hfr1]]].
    assert (Hd1 : h1 data = h data) by (apply Hfr1; congruence).
    assert (Hp1 : h1 params = h params) by (apply Hfr1; congruence).
    destruct (IH (pre ++ [clamp M b]) h1 (acc + log_term S EA M b d)%X)
      as [h2 [Hloop [Hy2 Hfr2]]].
    + rewrite Hy1, <- app_assoc. reflexivity.
    + rewrite Hd1, length_app. cbn [length]. lia.
    + rewrite Hp1. exact Hp.
    + exists h2. cbn [length seq map foldM]. rewrite Hstep.
      rewrite length_app in Hloop. cbn [length] in Hloop.
      rewrite Nat.add_1_r in Hloop. rewrite Hd1 in Hloop.
      rewrite Hloop, Hsk. cbn [log_terms fold_left].
      split; [reflexivity |]. split.
      * rewrite Hy2, <- app_assoc. reflexivity.
      * intros w Hw. rewrite (Hfr2 w Hw). apply Hfr1. exact Hw.
Qed.

Lemma log_terms_firstn (S EA : R) (M : Z) (y d : list R) :
  log_terms S EA M (firstn (length d) y) d = log_terms S EA M y d.
Proof.
  revert d. induction y as [| b y IH]; intros [| o d]; cbn;
    try reflexivity. rewrite IH. reflexivity.
Qed.

(** When the observed vector is shorter than the believed one, the call
    throws at the first position that has no observation.  By then it has
    clamped the believed values up to and including that position, and left
    the later ones alone; the sum accumulated over the paired positions is
    lost with the exception. *)
Theorem obs_likelihood_short_data
  (y data params : handle) (h : store) (S EA m : R) (rest : list R) :
  y <> data -> y <> params ->
  (length (h data) < length (h y))%nat ->
  h params = S :: EA :: m :: rest ->
  exists h' : store,
    obs_likelihood y data params h
    = Stop IndexOutOfBounds
        (h', xsum (log_terms S EA (double_to_int m) (h y) (h data)))
    /\ h' y = map (clamp (double_to_int m))
                  (firstn (Datatypes.S (length (h data))) (h y))
              ++ skipn (Datatypes.S (length (h data))) (h y)
    /\ (forall w, w <> y -> h' w = h w).
Proof.
  intros Hyd Hyp Hlen Hp.
  set (n := length (h data)) in *.
  destruct (skipn_cons_nth (h y) n Hlen) as [b [Hb Hsk]].
  assert (Hsplit : h y = firstn n (h y) ++ b :: skipn (Datatypes.S n) (h y)).
  { rewrite <- Hsk. symmetry. apply firstn_skipn. }
  assert (Hfn : length (firstn n (h y)) = n).
  { rewrite length_firstn. lia. }
  assert (Hc : checked (h params) 2 = Ok m) by (rewrite Hp; reflexivity).
  unfold obs_likelihood. rewrite Hc.
  assert (Hseq : zseq (length (h y))
                 = map Z.of_nat (seq 0 n)
                   ++ Z.of_nat n
                      :: map Z.of_nat
                           (seq (Datatypes.S n) (length (h y) - n - 1))).
  { unfold zseq.
    replace (length (h y)) with (n + Datatypes.S (length (h y) - n - 1))%nat
      at 1 by lia.
    rewrite seq_app, map_app. reflexivity. }
  cbv zeta. rewrite Hseq, foldM_app.
  destruct (obs_likelihood_loop_segment y data params (double_to_int m)
              S EA (m :: rest) (firstn n (h y))
              (b :: skipn (Datatypes.S n) (h y)) Hyd Hyp [] h (Fin 0))
    as [h1 [Hloop [Hy1 Hfr1]]].
  - exact Hsplit.
  - cbn [length]. rewrite Hfn. fold n. lia.
  - exact Hp.
  - rewrite Hfn in Hloop. cbn [length skipn] in Hloop. rewrite Hloop.
    cbn [app] in Hy1.
    assert (Hd1 : h1 data = h data) by (apply Hfr1; congruence).
    destruct (obs_likelihood_body_throws y data params (double_to_int m) h1
                (fold_left xadd
                   (log_terms S EA (double_to_int m) (firstn n (h y))
                      (h data)) (Fin 0))
                (map (clamp (double_to_int m)) (firstn n (h y)))
                (skipn (Datatypes.S n) (h y)) b Hyd Hy1)
      as [h2 [Hthrow [Hy2 Hfr2]]].
    + rewrite Hd1, length_map, Hfn. apply nth_error_None. fold n. lia.
    + rewrite length_map, Hfn in Hthrow.
      cbn [foldM]. rewrite Hthrow.
      exists h2. split; [| split].
      * unfold xsum. unfold n. rewrite log_terms_firstn. reflexivity.
      * rewrite Hy2.
        assert (Hf : firstn (Datatypes.S n) (h y) = firstn n (h y) ++ [b]).
        { rewrite Hsplit at 1.
          rewrite <- Hfn at 1.
          replace (Datatypes.S (length (firstn n (h y))))
            with (length (firstn n (h y)) + 1)%nat by lia.
          rewrite firstn_app_2. reflexivity. }
        rewrite Hf, map_app, <- app_assoc. reflexivity.
      * intros w Hw. rewrite (Hfr2 w Hw). apply Hfr1. exact Hw.
Qed.

Lemma obs_likelihood_short_data_witness :
  exists h' : store,
    obs_likelihood 0%nat 1%nat 2%nat
      (fresh_store [-3; -2; -1]%R [0]%R [4 / 5; 3 / 20; 5]%R)
    = Stop IndexOutOfBounds
        (h', xsum (log_terms (4 / 5) (3 / 20) (double_to_int 5)
                     [-3; -2; -1]%R [0]%R))
    /\ h' 0%nat
       = map (clamp (double_to_int 5)) (firstn 2 [-3; -2; -1]%R)
         ++ skipn 2 [-3; -2; -1]%R
    /\ (forall w, w <> 0%nat ->
                  h' w = fresh_store [-3; -2; -1]%R [0]%R
                           [4 / 5; 3 / 20; 5]%R w).
Proof.
  apply (obs_likelihood_short_data 0%nat 1%nat 2%nat
           (fresh_store [-3; -2; -1]%R [0]%R [4 / 5; 3 / 20; 5]%R)
           (4 / 5) (3 / 20) 5 []).
  - discriminate.
  - discriminate.
  - simpl. lia.
  - reflexivity.
Defined.

(** One turn of the loop when the believed and the observed vector are one
    and the same vector: the observation read is the clamped value. *)
Lemma obs_likelihood_body_shared
  (v params : handle) (M : Z) (h : store) (acc : xdouble)
  (pre suf : list R) (b S EA : R) (rest : list R) :
  v <> params ->
  h v = pre ++ b :: suf ->
  h params = S :: EA :: rest ->
  exists h' : store,
    obs_likelihood_body v v params M (Z.of_nat (length pre)) (h, acc)
    = Done (h', (acc + log_term S EA M b (clamp M b))%X)
    /\ h' v = pre ++ clamp M b :: suf
    /\ (forall w, w <> v -> h' w = h w).
Proof.
  intros Hvp Hv Hp.
  assert (Hp' : params <> v) by congruence.
  unfold obs_likelihood_body, log_term, clamp.
  unfold checked at 1. rewrite elem_of_nat, Hv, nth_error_middle.
  cbn [bindStop].
  destruct (Rlt_dec b 0) as [Hb | Hb].
  - rewrite (assign_middle h v pre suf b 0 Hv). cbn [bindStop].
    unfold checked at 1.
    rewrite elem_of_nat, store_set_same, nth_error_middle. cbn [bindStop].
    destruct (Rge_dec 0 (IZR M)) as [HM | HM].
    + rewrite (assign_middle _ v pre suf 0 (IZR M) (store_set_same _ _ _)).
      cbn [bindStop]. unfold checked.
      rewrite !elem_of_nat, store_set_same, nth_error_middle.
      rewrite !(store_set_other _ v params) by assumption.
      rewrite Hp. cbn.
      rewrite !double_to_int_floor.
      eexists. split; [reflexivity |]. split.
      * apply store_set_same.
      * intros w Hw. rewrite !store_set_other by assumption. reflexivity.
    + cbn [bindStop]. unfold checked.
      rewrite !elem_of_nat, store_set_same, nth_error_middle.
      rewrite !(store_set_other _ v params) by assumption.
      rewrite Hp. cbn.
      rewrite !double_to_int_floor.
      eexists. split; [reflexivity |]. split.
      * apply store_set_same.
      * intros w Hw. rewrite !store_set_other by assumption. reflexivity.
  - cbn [bindStop]. unfold checked at 1.
    rewrite elem_of_nat, Hv, nth_error_middle. cbn [bindStop].
    destruct (Rge_dec b (IZR M)) as [HM | HM].
    + rewrite (assign_middle h v pre suf b (IZR M) Hv).
      cbn [bindStop]. unfold checked.
      rewrite !elem_of_nat, store_set_same, nth_error_middle.
      rewrite !(store_set_other _ v params) by assumption.
      rewrite Hp. cbn.
      rewrite !double_to_int_floor.
      eexists. split; [reflexivity |]. split.
      * apply store_set_same.
      * intros w Hw. rewrite !store_set_other by assumption. reflexivity.
    + cbn [bindStop]. unfold checked.
      rewrite !elem_of_nat, Hv, nth_error_middle, Hp. cbn.
      rewrite !double_to_int_floor.
      eexists. split; [reflexivity |]. split.
      * exact Hv.
      * intros w Hw. reflexivity.
Qed.

Lemma obs_likelihood_loop_shared
  (v params : handle) (M : Z) (S EA : R) (rest : list R) (suf : list R) :
  v <> params ->
  forall (pre : list R) (h : store) (acc : xdouble),
    h v = pre ++ suf ->
    h params = S :: EA :: rest ->
    exists h' : store,
      foldM (obs_likelihood_body v v params M)
            (map Z.of_nat (seq (length pre) (length suf))) (h, acc)
      = Done (h', fold_left xadd
                    (log_terms S EA M suf (map (clamp M) suf)) acc)
      /\ h' v = pre ++ map (clamp M) suf
      /\ (forall w, w <> v -> h' w = h w).
Proof.
  intros Hvp.
  induction suf as [| b suf IH]; intros pre h acc Hv Hp.
  - exists h. cbn [length seq map foldM log_terms fold_left].
    split; [reflexivity |]. split; [exact Hv |].
    intros w Hw. reflexivity.
  - destruct (obs_likelihood_body_shared v params M h acc pre suf b
                S EA rest Hvp Hv Hp) as [h1 [Hstep [Hv1 Hfr1]]].
    assert (Hp1 : h1 params = h params) by (apply Hfr1; congruence).
    destruct (IH (pre ++ [clamp M b]) h1
                (acc + log_term S EA M b (clamp M b))%X)
      as [h2 [Hloop [Hv2 Hfr2]]].
    + rewrite Hv1, <- app_assoc. reflexivity.
    + rewrite Hp1. exact Hp.
    + exists h2. cbn [length seq map foldM]. rewrite Hstep.
      rewrite length_app in Hloop. cbn [length] in Hloop.
      rewrite Nat.add_1_r in Hloop.
      rewrite Hloop. cbn [log_terms fold_left].
      split; [reflexivity |]. split.
      * rewrite Hv2, <- app_assoc. reflexivity.
      * intros w Hw. rewrite (Hfr2 w Hw). apply Hfr1. exact Hw.
Qed.

(** When one vector is passed both as the believed and as the observed
    titres, the observations are clamped with the believed values: the call
    cannot throw for a missing observation, it scores every position as the
    clamped value observed as itself, and the caller's data end up clamped
    into the scale. *)
Theorem obs_likelihood_shared_vector
  (v params : handle) (h : store) (S EA m : R) (rest : list R) :
  v <> params ->
  h params = S :: EA :: m :: rest ->
  exists h' : store,
    obs_likelihood v v params h
    = Done (h', xsum (log_terms S EA (double_to_int m) (h v)
                        (map (clamp (double_to_int m)) (h v))))
    /\ h' v = map (clamp (double_to_int m)) (h v)
    /\ (forall w, w <> v -> h' w = h w).
Proof.
  intros Hvp Hp.
  assert (Hc : checked (h params) 2 = Ok m) by (rewrite Hp; reflexivity).
  unfold obs_likelihood. rewrite Hc. cbv zeta.
  exact (obs_likelihood_loop_shared v params (double_to_int m) S EA
           (m :: rest) (h v) Hvp [] h (Fin 0) eq_refl Hp).
Qed.

Lemma obs_likelihood_shared_vector_witness :
  exists h' : store,
    obs_likelihood 0%nat 0%nat 2%nat
      (fresh_store [-3; 9; 2]%R [] [4 / 5; 3 / 20; 5]%R)
    = Done (h', xsum (log_terms (4 / 5) (3 / 20) (double_to_int 5)
                        [-3; 9; 2]%R
                        (map (clamp (double_to_int 5)) [-3; 9; 2]%R)))
    /\ h' 0%nat = map (clamp (double_to_int 5)) [-3; 9; 2]%R
    /\ (forall w, w <> 0%nat ->
                  h' w = fresh_store [-3; 9; 2]%R [] [4 / 5; 3 / 20; 5]%R w).
Proof.
  apply (obs_likelihood_shared_vector 0%nat 2%nat
           (fresh_store [-3; 9; 2]%R [] [4 / 5; 3 / 20; 5]%R)
           (4 / 5) (3 / 20) 5 []).
  - discriminate.
  - reflexivity.
Defined.

(** ** [posterior_func_group_cpp]: the state a run ends in *)

(** An invariant of the states a loop passes through, and a weaker one of
    the states it can stop in. *)
Lemma foldM_outcome {A St : Type} (PD PS : St -> Prop)
  (f : A -> St -> outcome St) (l : list A) :
  (forall x t, PD t ->
     match f x t with Done t' => PD t' | Stop _ t' => PS t' end) ->
  forall s, PD s ->
    match foldM f l s with Done t' => PD t' | Stop _ t' => PS t' end.
Proof.
  intros Hstep. induction l as [| x l IH]; intros s Hs; cbn [foldM].
  - exact Hs.
  - specialize (Hstep x s Hs).
    destruct (f x s) as [t | e t]; [apply IH; exact Hstep | exact Hstep].
Qed.

Lemma Forall_set_nth {A : Type} (P : A -> Prop) (i : nat) (x : A)
  (v : list A) :
  Forall P v -> P x -> Forall P (set_nth i x v).
Proof.
  intros Hv Hx. revert i. induction Hv as [| z v Hz Hv IH]; intros [| i];
    cbn; constructor; auto.
Qed.

Lemma add_trajectory_shape (m m' : NumericMatrix) (row : Z) (y : list R)
  (n : nat) :
  add_trajectory m row y = Ok m' ->
  Forall (fun r => length r = n) m ->
  length m' = length m /\ Forall (fun r => length r = n) m'.
Proof.
  unfold add_trajectory, unchecked, elem. intros H Hm.
  destruct (row <? 0); [discriminate |].
  destruct (nth_error m (Z.to_nat row)) as [r |] eqn:Hr; [| discriminate].
  cbn [rbind] in H.
  destruct (length y <=? length r)%nat; [| discriminate].
  injection H as <-. split; [apply set_nth_length |].
  apply Forall_set_nth; [exact Hm |].
  rewrite add_prefix_length.
  apply nth_error_In in Hr. rewrite Forall_forall in Hm. apply Hm, Hr.
Qed.

Section RunState.

Variable solver : NumericVector -> NumericVector -> NumericVector.
Variable a : arguments.

Lemma before_scoring_cursor (s : locals) :
  before_scoring_state a s -> cursor_ok_state a s.
Proof.
  intros [Hw [Hs Hd]]. unfold cursor_ok_state. rewrite Hs, Hd.
  split; [exact Hw |]. split; [reflexivity |]. split; [reflexivity |].
  intros p [].
Qed.

Lemma exposure_step_stop (strain e : Z) (s s' : locals) (err : failure) :
  exposure_step solver a strain e s = Stop err s' -> s' = s.
Proof.
  unfold exposure_step. intros H.
  destruct (assemble_fullPars a strain e) as [fp | e1];
    [| injection H as _ <-; reflexivity].
  destruct (add_trajectory _ _ _) as [res | e1];
    [discriminate | injection H as _ <-; reflexivity].
Qed.

Lemma exposure_step_outcome (strain e : Z) (s : locals) :
  before_scoring_state a s ->
  match exposure_step solver a strain e s with
  | Done s' => before_scoring_state a s'
  | Stop _ s' => cursor_ok_state a s'
  end.
Proof.
  intros Hs.
  destruct (exposure_step solver a strain e s) as [s' | err s'] eqn:Hstep.
  - destruct (exposure_step_done solver a strain e s s' Hstep)
      as [fp [_ [Hadd [_ [_ [Hd [_ Hsc]]]]]]].
    destruct Hs as [[Hlen Hrows] [Hs0 Hd0]].
    destruct (add_trajectory_shape _ _ _ _ _ Hadd Hrows) as [Hl' Hr'].
    unfold before_scoring_state, well_shaped. rewrite Hl', Hsc, Hd.
    repeat split; assumption.
  - rewrite (exposure_step_stop strain e s s' err Hstep).
    apply before_scoring_cursor, Hs.
Qed.

Lemma scoring_loop_cursor (fuel : nat) (i j : Z) :
  forall (jj : Z) (s : locals),
    cursor_ok_state a s -> (cursor_ok_state a) (final (scoring_loop a fuel i j jj s)).
Proof.
  induction fuel as [| fuel IH]; intros jj s Hs; cbn [scoring_loop].
  - exact Hs.
  - destruct (unchecked (individuals a) i) as [n | e]; [| exact Hs].
    destruct (j <? n); [| exact Hs].
    destruct (score_individual a s) as [s1 | e s1] eqn:Hsc.
    + apply IH.
      destruct (score_individual_done a s s1 Hsc)
        as [Hr [_ [Hm [Hd Htr]]]].
      destruct Hs as [[Hlen Hrows] [Hcur [Hsnd Hfst]]].
      unfold cursor_ok_state, well_shaped.
      rewrite Hr, Hd, Htr, Hm, length_app, map_app, Hsnd.
      cbn [length map snd].
      repeat split; try assumption.
      * lia.
      * rewrite Nat.add_1_r, zseq_succ, Hcur. reflexivity.
      * intros p Hp. apply in_app_or in Hp as [Hp | [<- | []]];
          [apply Hfst, Hp | reflexivity].
    + rewrite (score_individual_stop a s s1 e Hsc). exact Hs.
Qed.

Lemma strain_step_outcome (fuel : nat) (i : Z) (tmp : list Z) (j : Z)
  (s : locals) :
  before_scoring_state a s ->
  match strain_step solver a fuel i tmp j s with
  | Done s' => before_scoring_state a s'
  | Stop _ s' => cursor_ok_state a s'
  end.
Proof.
  intros Hs. unfold strain_step.
  destruct (unchecked (strains a) j) as [sj | e];
    [| apply before_scoring_cursor, Hs].
  assert (Hexp := foldM_outcome (before_scoring_state a) (cursor_ok_state a)
                    (exposure_step solver a (sj - 1)) tmp
                    (fun e t => exposure_step_outcome (sj - 1) e t) s Hs).
  destruct (foldM (exposure_step solver a (sj - 1)) tmp s) as [s1 | e s1];
    [| exact Hexp].
  assert (Hcur := scoring_loop_cursor fuel i j 0 s1
                    (before_scoring_cursor s1 Hexp)).
  destruct (scoring_loop a fuel i j 0 s1) as [s2 | e s2] eqn:Hsc;
    [| exact Hcur].
  destruct (scoring_loop_done a fuel i j 0 s1 s2 Hsc) as [-> _].
  destruct Hexp as [Hw [Hs0 Hd0]].
  unfold before_scoring_state, well_shaped. cbn [results scored index_data].
  repeat split; try assumption; apply Hw.
Qed.

Lemma group_step_outcome (fuel : nat) (i : Z) (s : locals) :
  before_scoring_state a s ->
  match group_step solver a fuel i s with
  | Done s' => before_scoring_state a s'
  | Stop _ s' => cursor_ok_state a s'
  end.
Proof.
  intros Hs. unfold group_step.
  destruct (unchecked (groups a) i); [| apply before_scoring_cursor, Hs].
  destruct (group_exposures a i) as [tmp | e];
    [| apply before_scoring_cursor, Hs].
  apply (foldM_outcome (before_scoring_state a) (cursor_ok_state a)); [| exact Hs].
  intros j t. apply strain_step_outcome.
Qed.

Lemma initial_before_scoring : (before_scoring_state a) (initial_locals a).
Proof.
  unfold before_scoring_state, well_shaped, initial_locals.
  cbn [results scored index_data]. rewrite repeat_length.
  repeat split.
  apply Forall_forall. intros row Hrow. apply repeat_spec in Hrow.
  subst row. apply repeat_length.
Qed.

(** However a run ends (with a return, an exception or an exhausted step
    budget), the results matrix has kept its shape, the data cursor equals
    the number of scoring calls made, those calls read the data rows
    0, 1, 2, ... in this order, and all of them scored the row of one and the
    same (group, strain) pair, the one the run ended in. *)
Theorem posterior_final_state (fuel : nat) :
  (length (results (final (posterior_func_group_cpp solver a fuel)))
   = (length (strains a) * length (groups a))%nat /\
   Forall (fun row => length row = length (times a))
          (results (final (posterior_func_group_cpp solver a fuel))))
  /\ index_data (final (posterior_func_group_cpp solver a fuel))
     = Z.of_nat
         (length (scored (final (posterior_func_group_cpp solver a fuel))))
  /\ map snd (scored (final (posterior_func_group_cpp solver a fuel)))
     = zseq (length
               (scored (final (posterior_func_group_cpp solver a fuel))))
  /\ (forall p,
        In p (scored (final (posterior_func_group_cpp solver a fuel))) ->
        fst p
        = index_model (final (posterior_func_group_cpp solver a fuel))).
Proof.
  assert (H := foldM_outcome (before_scoring_state a) (cursor_ok_state a)
                 (group_step solver a fuel) (zseq (length (groups a)))
                 (fun i t => group_step_outcome fuel i t)
                 (initial_locals a) initial_before_scoring).
  fold (posterior_func_group_cpp solver a fuel) in H.
  destruct (posterior_func_group_cpp solver a fuel) as [s | e s];
    cbn [final].
  - apply before_scoring_cursor in H. exact H.
  - exact H.
Qed.

End RunState.

Section Return.

Variable solver : NumericVector -> NumericVector -> NumericVector.
Variable a : arguments.

Lemma strain_step_done_guard (fuel : nat) (i : Z) (tmp : list Z) (j : Z)
  (s s' : locals) :
  strain_step solver a fuel i tmp j s = Done s' ->
  exists n, unchecked (individuals a) i = Ok n /\ n <= j.
Proof.
  unfold strain_step. intros H.
  destruct (unchecked (strains a) j) as [sj | e]; [| discriminate].
  destruct (foldM _ tmp s) as [s1 | e s1]; [| discriminate].
  destruct (scoring_loop a fuel i j 0 s1) as [s2 | e s2] eqn:Hsc;
    [| discriminate].
  exact (proj2 (scoring_loop_done a fuel i j 0 s1 s2 Hsc)).
Qed.

Lemma group_step_done_guard (fuel : nat) (i : Z) (s s' : locals) :
  group_step solver a fuel i s = Done s' -> strains a <> [] ->
  exists n, unchecked (individuals a) i = Ok n /\ n <= 0.
Proof.
  unfold group_step. intros H Hne.
  destruct (unchecked (groups a) i); [| discriminate].
  destruct (group_exposures a i) as [tmp | e]; [| discriminate].
  destruct (strains a) as [| s0 l]; [contradiction |].
  change (zseq (length (s0 :: l)))
    with (0 :: map Z.of_nat (seq 1 (length l))) in H.
  cbn [foldM] in H.
  destruct (strain_step solver a fuel i tmp 0 s) as [s1 | e s1] eqn:Hstep;
    [| discriminate].
  exact (strain_step_done_guard fuel i tmp 0 s s1 Hstep).
Qed.

(** A call returns only when it has scored nobody: the value returned is
    then zero, no data row has been read, every (group, strain) pair has
    been simulated, and, when there is a measured strain, no group has a
    positive number of individuals. *)
Theorem posterior_return_state (fuel : nat) (s : locals) :
  posterior_func_group_cpp solver a fuel = Done s ->
  ln_acc s = Fin 0 /\ scored s = [] /\ index_data s = 0 /\
  index_model s = Z.of_nat (length (groups a) * length (strains a)) /\
  (strains a <> [] ->
   forall i : nat,
     (i < length (groups a))%nat ->
     exists n : Z, nth_error (individuals a) i = Some n /\ n <= 0).
Proof.
  intros Hrun.
  destruct (posterior_returns_unscored solver a fuel s Hrun)
    as [Hsc [Hln Hd]].
  destruct (groups_prefix_fresh solver a fuel (length (groups a)) s Hrun)
    as [Hm _].
  repeat split; try assumption.
  intros Hne.
  refine (foldM_zseq_invariant
            (fun k (_ : locals) =>
               forall i : nat, (i < k)%nat ->
                 exists n : Z, nth_error (individuals a) i = Some n /\ n <= 0)
            _ _ _ _ _ _ Hrun).
  - intros k t t' _ IH Hstep i Hi.
    destruct (Nat.eq_dec i k) as [-> | Hik]; [| apply IH; lia].
    destruct (group_step_done_guard fuel _ t t' Hstep Hne) as [n [Hn Hle]].
    exists n. split; [| exact Hle].
    unfold unchecked in Hn. rewrite elem_of_nat in Hn.
    destruct (nth_error (individuals a) k) as [n' |]; [| discriminate].
    injection Hn as ->. reflexivity.
  - intros i Hi. lia.
Qed.

End Return.

Lemma posterior_return_state_witness :
  ln_acc (mkLocals [[0 + 4 + 4; 0 + 4 + 4; 0 + 4 + 4]]%R
            [4 / 5; 3 / 20; 8; 0; 1; 1; 0]%R (Fin 0) 0 1 [])
  = Fin 0
  /\ scored (mkLocals [[0 + 4 + 4; 0 + 4 + 4; 0 + 4 + 4]]%R
               [4 / 5; 3 / 20; 8; 0; 1; 1; 0]%R (Fin 0) 0 1 [])
     = []
  /\ index_data (mkLocals [[0 + 4 + 4; 0 + 4 + 4; 0 + 4 + 4]]%R
                   [4 / 5; 3 / 20; 8; 0; 1; 1; 0]%R (Fin 0) 0 1 [])
     = 0
  /\ index_model (mkLocals [[0 + 4 + 4; 0 + 4 + 4; 0 + 4 + 4]]%R
                    [4 / 5; 3 / 20; 8; 0; 1; 1; 0]%R (Fin 0) 0 1 [])
     = Z.of_nat (length (groups two_exposures)
                 * length (strains two_exposures))
  /\ (strains two_exposures <> [] ->
      forall i : nat,
        (i < length (groups two_exposures))%nat ->
        exists n : Z,
          nth_error (individuals two_exposures) i = Some n /\ n <= 0).
Proof.
  apply (posterior_return_state (constant_solver 4) two_exposures 1%nat).
  reflexivity.
Defined.

(** ** [posterior_func_group_cpp]: arguments that are not used *)

Lemma foldM_ext {A St : Type} (f g : A -> St -> outcome St) (l : list A) :
  (forall x, In x l -> forall t, f x t = g x t) ->
  forall s, foldM f l s = foldM g l s.
Proof.
  induction l as [| x l IH]; intros H s; cbn [foldM]; [reflexivity |].
  rewrite (H x (or_introl eq_refl) s).
  destruct (g x s) as [t | e t]; [| reflexivity].
  apply IH. intros z Hz. apply H. right. exact Hz.
Qed.

Lemma unchecked_in_range {A : Type} (v : list A) (k : nat) :
  (k < length v)%nat -> exists x, unchecked v (Z.of_nat k) = Ok x.
Proof.
  intros Hk. unfold unchecked. rewrite elem_of_nat.
  destruct (nth_error v k) as [x |] eqn:Hx; [exists x; reflexivity |].
  apply nth_error_None in Hx. lia.
Qed.

(** The labels in [groups] (line 99) and the whole vector
    [measured_strains] are never used: a run with other group labels (as
    many of them) and any other [measured_strains] ends in the same way, in
    the same state. *)
Theorem posterior_ignores_labels
  (solver : NumericVector -> NumericVector -> NumericVector) (a : arguments)
  (grp ms : IntegerVector) (fuel : nat) :
  length grp = length (groups a) ->
  posterior_func_group_cpp solver (relabelled a grp ms) fuel
  = posterior_func_group_cpp solver a fuel.
Proof.
  intros Hlen. unfold posterior_func_group_cpp.
  change (groups (relabelled a grp ms)) with grp.
  assert (Hinit : initial_locals (relabelled a grp ms) = initial_locals a).
  { unfold initial_locals.
    change (groups (relabelled a grp ms)) with grp.
    change (strains (relabelled a grp ms)) with (strains a).
    change (times (relabelled a grp ms)) with (times a).
    rewrite Hlen. reflexivity. }
  rewrite Hinit, Hlen.
  apply foldM_ext. intros i Hi t.
  apply In_zseq in Hi.
  unfold group_step.
  change (groups (relabelled a grp ms)) with grp.
  destruct (unchecked_in_range grp (Z.to_nat i)) as [g1 Hg1]; [lia |].
  destruct (unchecked_in_range (groups a) (Z.to_nat i)) as [g2 Hg2]; [lia |].
  rewrite Z2Nat.id in Hg1, Hg2 by lia.
  rewrite Hg1, Hg2. reflexivity.
Qed.

Lemma posterior_ignores_labels_witness :
  posterior_func_group_cpp (constant_solver 4)
    (relabelled two_groups [7; 7] [3; 1; 4]) 4
  = posterior_func_group_cpp (constant_solver 4) two_groups 4.
Proof.
  apply (posterior_ignores_labels (constant_solver 4) two_groups
           [7; 7] [3; 1; 4] 4).
  reflexivity.
Defined.

(** ** Blocks of the index tables *)

Lemma subset_range_block {A : Type} (v l : list A) (a b : Z) :
  subset_range v a b = Ok l ->
  0 <= a <= b /\ b < Z.of_nat (length v) /\
  Z.of_nat (length l) = b - a + 1 /\
  forall k : nat,
    (k < length l)%nat -> nth_error l k = nth_error v (Z.to_nat a + k).
Proof.
  unfold subset_range.
  destruct (Z.gtb_spec a b) as [Hgt | Hle]; [discriminate |].
  destruct (Z.ltb_spec a 0) as [Ha | Ha]; [discriminate |].
  destruct (Z.leb_spec (Z.of_nat (length v)) b) as [Hb | Hb];
    [discriminate |].
  cbn [orb]. intros H. injection H as <-.
  assert (Hl : length (firstn (Z.to_nat (b - a + 1)) (skipn (Z.to_nat a) v))
               = Z.to_nat (b - a + 1)).
  { rewrite length_firstn, length_skipn. lia. }
  repeat split; try lia.
  intros k Hk. rewrite Hl in Hk.
  rewrite nth_error_firstn.
  destruct (Nat.ltb_spec k (Z.to_nat (b - a + 1))); [| lia].
  apply nth_error_skipn.
Qed.

Lemma unchecked_nth {A : Type} (v : list A) (i : Z) (x : A) :
  unchecked v i = Ok x -> 0 <= i /\ nth_error v (Z.to_nat i) = Some x.
Proof.
  unfold unchecked, elem.
  destruct (Z.ltb_spec i 0) as [Hi | Hi]; [discriminate |].
  destruct (nth_error v (Z.to_nat i)) as [z |]; [| discriminate].
  intros H. injection H as <-. split; [exact Hi | reflexivity].
Qed.

(** The exposures of group [i] are the entries of [exposure_indices] from
    position [exposure_i_lengths[i]] up to, not including, position
    [exposure_i_lengths[i+1]], in order; a group whose exposures are
    resolved has at least one. *)
Theorem group_exposures_block (a : arguments) (i : Z) (tmp : list Z) :
  group_exposures a i = Ok tmp ->
  exists A B1 : Z,
    unchecked (exposure_i_lengths a) i = Ok A /\
    unchecked (exposure_i_lengths a) (i + 1) = Ok B1 /\
    0 <= A < B1 /\ B1 <= Z.of_nat (length (exposure_indices a)) /\
    Z.of_nat (length tmp) = B1 - A /\
    tmp <> [] /\
    forall k : nat,
      (k < length tmp)%nat ->
      nth_error tmp k = nth_error (exposure_indices a) (Z.to_nat A + k).
Proof.
  unfold group_exposures. intros H.
  apply rbind_ok in H as [A [HA H]].
  apply rbind_ok in H as [B1 [HB H]].
  destruct (subset_range_block _ _ _ _ H) as [Hab [Hb [Hl Hnth]]].
  exists A, B1. repeat split; try assumption; try lia.
  intros ->. cbn in Hl. lia.
Qed.

Lemma group_exposures_block_witness :
  exists A B1 : Z,
    unchecked (exposure_i_lengths two_groups) 1 = Ok A /\
    unchecked (exposure_i_lengths two_groups) (1 + 1) = Ok B1 /\
    0 <= A < B1 /\ B1 <= Z.of_nat (length (exposure_indices two_groups)) /\
    Z.of_nat (length [6]) = B1 - A /\
    [6] <> [] /\
    forall k : nat,
      (k < length [6])%nat ->
      nth_error [6] k
      = nth_error (exposure_indices two_groups) (Z.to_nat A + k).
Proof.
  apply (group_exposures_block two_groups 1 [6]). reflexivity.
Defined.

Lemma zseq_split (i n : nat) :
  (i < n)%nat ->
  zseq n = zseq i ++ Z.of_nat i :: map Z.of_nat (seq (S i) (n - i - 1)).
Proof.
  intros Hi. unfold zseq.
  replace n with (i + S (n - i - 1))%nat at 1 by lia.
  rewrite seq_app, map_app. reflexivity.
Qed.

(** A group with an empty block of exposures
    ([exposure_i_lengths[i+1] <= exposure_i_lengths[i]]) cannot be
    evaluated: when the run reaches it, [Range(A, B)] is built with
    [A > B] and the call ends with a range error, before any strain of that
    group is looked at. *)
Theorem empty_exposure_block_throws
  (solver : NumericVector -> NumericVector -> NumericVector) (a : arguments)
  (fuel i : nat) (s_i : locals) (A B1 : Z) :
  (i < length (groups a))%nat ->
  foldM (group_step solver a fuel) (zseq i) (initial_locals a) = Done s_i ->
  unchecked (exposure_i_lengths a) (Z.of_nat i) = Ok A ->
  unchecked (exposure_i_lengths a) (Z.of_nat i + 1) = Ok B1 ->
  B1 <= A ->
  posterior_func_group_cpp solver a fuel = Stop RangeError s_i.
Proof.
  intros Hi Hpre HA HB Hle. unfold posterior_func_group_cpp.
  rewrite (zseq_split i _ Hi), foldM_app, Hpre. cbn [foldM].
  unfold group_step at 1.
  destruct (unchecked_in_range (groups a) i Hi) as [g Hg]. rewrite Hg.
  unfold group_exposures. rewrite HA, HB. cbn [rbind].
  unfold subset_range.
  destruct (Z.gtb_spec A (B1 - 1)) as [Hgt | Hngt]; [reflexivity | lia].
Qed.

Lemma empty_exposure_block_throws_witness :
  posterior_func_group_cpp (constant_solver 4)
    (scenario (4 / 5) (3 / 20) 8 [1; 2] [0; 0] [5] [0; 1; 1] []) 1
  = Stop RangeError
      (mkLocals [[0 + 4; 0 + 4; 0 + 4]; [0; 0; 0]]%R
                [4 / 5; 3 / 20; 8; 0; 1; 1; 0]%R (Fin 0) 0 1 []).
Proof.
  apply (empty_exposure_block_throws (constant_solver 4)
           (scenario (4 / 5) (3 / 20) 8 [1; 2] [0; 0] [5] [0; 1; 1] [])
           1%nat 1%nat _ 1 1).
  - simpl. lia.
  - reflexivity.
  - reflexivity.
  - reflexivity.
  - lia.
Defined.

Lemma subset_indices_entries {A : Type} (v : list A) (idx : list Z) :
  forall l : list A,
    subset_indices v idx = Ok l ->
    length l = length idx /\
    forall (k : nat) (i : Z),
      nth_error idx k = Some i ->
      exists x, checked v i = Ok x /\ nth_error l k = Some x.
Proof.
  induction idx as [| i0 idx IH]; intros l H; cbn [subset_indices] in H.
  - injection H as <-. split; [reflexivity |].
    intros k i Hk. destruct k; discriminate.
  - apply rbind_ok in H as [x [Hx H]].
    apply rbind_ok in H as [xs [Hxs H]].
    injection H as <-.
    destruct (IH xs Hxs) as [Hlen Hent].
    split; [cbn; rewrite Hlen; reflexivity |].
    intros [| k] i Hk; cbn in Hk |- *.
    + injection Hk as <-. exists x. split; [exact Hx | reflexivity].
    + apply Hent. exact Hk.
Qed.

(** The vector assembled for an exposure of type [ty] starts with the
    type's kinetics block: entry [k] is the parameter whose row is entry
    [par_lengths[ty-1] + k] of [par_type_ind], for every [k] below the block
    length [par_lengths[ty] - par_lengths[ty-1]], which is at least one;
    four entries follow, the first being the primed flag and the last the
    infection time [pars[e]].  The vector has at least five entries. *)
Theorem assemble_fullPars_entries (a : arguments) (strain e : Z)
  (fp : NumericVector) :
  assemble_fullPars a strain e = Ok fp ->
  exists (ty A B1 ip : Z) (t_i : R),
    unchecked (exposure_types a) e = Ok ty /\
    unchecked (par_lengths a) (ty - 1) = Ok A /\
    unchecked (par_lengths a) (ty - 1 + 1) = Ok B1 /\
    unchecked (exposure_primes a) e = Ok ip /\
    unchecked (pars a) e = Ok t_i /\
    0 <= A < B1 /\ B1 <= Z.of_nat (length (par_type_ind a)) /\
    length fp = (Z.to_nat (B1 - A) + 4)%nat /\
    (5 <= length fp)%nat /\
    (forall k : nat,
       (k < Z.to_nat (B1 - A))%nat ->
       exists (row : Z) (x : R),
         nth_error (par_type_ind a) (Z.to_nat A + k) = Some row /\
         checked (pars a) row = Ok x /\
         nth_error fp k = Some x) /\
    nth_error fp (Z.to_nat (B1 - A)) = Some (IZR ip) /\
    nth_error fp (Z.to_nat (B1 - A) + 3) = Some t_i.
Proof.
  intros H.
  destruct (assemble_fullPars_shape a strain e fp H)
    as [kin [idx [ty [A [B1 [ip [mod_ [cr [t_i
         [Hty [HA [HB [Hidx [Hkin [Hip [Hti ->]]]]]]]]]]]]]]]].
  destruct (subset_range_block _ _ _ _ Hidx) as [Hab [Hb [Hl Hnth]]].
  destruct (subset_indices_entries _ _ _ Hkin) as [Hlk Hent].
  assert (Hk : length kin = Z.to_nat (B1 - A)) by lia.
  exists ty, A, B1, ip, t_i.
  repeat split; try assumption; try lia.
  - rewrite length_app, Hk. reflexivity.
  - rewrite length_app, Hk. cbn [length]. lia.
  - intros k Hlt.
    assert (Hki : (k < length idx)%nat) by lia.
    destruct (nth_error idx k) as [row |] eqn:Hrow;
      [| apply nth_error_None in Hrow; lia].
    destruct (Hent k row Hrow) as [x [Hx Hfx]].
    exists row, x. rewrite <- (Hnth k Hki).
    repeat split; try assumption.
    rewrite nth_error_app1 by lia. exact Hfx.
  - rewrite <- Hk, nth_error_app2, Nat.sub_diag by lia. reflexivity.
  - rewrite <- Hk, nth_error_app2 by lia.
    replace (length kin + 3 - length kin)%nat with 3%nat by lia.
    reflexivity.
Qed.

Lemma assemble_fullPars_entries_witness :
  exists (ty A B1 ip : Z) (t_i : R),
    unchecked (exposure_types (mixed_types 1 2)) 9 = Ok ty /\
    unchecked (par_lengths (mixed_types 1 2)) (ty - 1) = Ok A /\
    unchecked (par_lengths (mixed_types 1 2)) (ty - 1 + 1) = Ok B1 /\
    unchecked (exposure_primes (mixed_types 1 2)) 9 = Ok ip /\
    unchecked (pars (mixed_types 1 2)) 9 = Ok t_i /\
    0 <= A < B1 /\
    B1 <= Z.of_nat (length (par_type_ind (mixed_types 1 2))) /\
    length [1 / 2; 3 / 20; 10; 0; 1; 1; 0]%R = (Z.to_nat (B1 - A) + 4)%nat /\
    (5 <= length [1 / 2; 3 / 20; 10; 0; 1; 1; 0]%R)%nat /\
    (forall k : nat,
       (k < Z.to_nat (B1 - A))%nat ->
       exists (row : Z) (x : R),
         nth_error (par_type_ind (mixed_types 1 2)) (Z.to_nat A + k)
         = Some row /\
         checked (pars (mixed_types 1 2)) row = Ok x /\
         nth_error [1 / 2; 3 / 20; 10; 0; 1; 1; 0]%R k = Some x) /\
    nth_error [1 / 2; 3 / 20; 10; 0; 1; 1; 0]%R (Z.to_nat (B1 - A))
    = Some (IZR ip) /\
    nth_error [1 / 2; 3 / 20; 10; 0; 1; 1; 0]%R (Z.to_nat (B1 - A) + 3)
    = Some t_i.
Proof.
  apply (assemble_fullPars_entries (mixed_types 1 2) 0 9
           [1 / 2; 3 / 20; 10; 0; 1; 1; 0]%R).
  reflexivity.
Defined.

Lemma foldM_last {A St : Type} (f : A -> St -> outcome St) (l : list A) :
  l <> [] ->
  forall s s', foldM f l s = Done s' -> exists x t, f x t = Done s'.
Proof.
  induction l as [| x l IH]; intros Hne s s' H; [contradiction |].
  cbn [foldM] in H.
  destruct (f x s) as [t | e t] eqn:Hf; [| discriminate].
  destruct l as [| z l].
  - cbn in H. injection H as <-. exists x, s. exact Hf.
  - apply (IH ltac:(discriminate) t s' H).
Qed.

(** A scoring call never fails for want of parameters: once the exposures
    of a group have been accumulated, [fullPars] holds at least five
    entries, so that [obs_likelihood] finds its [params(0)], [params(1)] and
    [params(2)], and on a data row that covers the results row the call
    returns. *)
Theorem scoring_has_parameters
  (solver : NumericVector -> NumericVector -> NumericVector) (a : arguments)
  (i strain : Z) (tmp : list Z) (s s1 : locals) :
  group_exposures a i = Ok tmp ->
  foldM (exposure_step solver a strain) tmp s = Done s1 ->
  (5 <= length (fullPars s1))%nat /\
  exists (S EA m : R) (rest : list R),
    fullPars s1 = S :: EA :: m :: rest /\
    forall y d : list R,
      (length y <= length d)%nat ->
      returned (obs_likelihood_on y d (fullPars s1))
      = Some (xsum (log_terms S EA (double_to_int m) y d)).
Proof.
  intros Htmp Hrun.
  assert (Hne : tmp <> []).
  { unfold group_exposures in Htmp.
    apply rbind_ok in Htmp as [A [_ Htmp]].
    apply rbind_ok in Htmp as [B1 [_ Htmp]].
    destruct (subset_range_block _ _ _ _ Htmp) as [Hab [_ [Hl _]]].
    intros ->. cbn in Hl. lia. }
  destruct (foldM_last _ tmp Hne s s1 Hrun) as [e [t Hstep]].
  destruct (exposure_step_done solver a strain e t s1 Hstep)
    as [fp [Hasm [_ [Hfp _]]]].
  destruct (assemble_fullPars_shape a strain e fp Hasm)
    as [kin [idx [ty [A [B1 [ip [mod_ [cr [t_i
         [_ [_ [_ [Hidx [Hkin [_ [_ Heq]]]]]]]]]]]]]]]].
  destruct (subset_range_block _ _ _ _ Hidx) as [Hab [_ [Hl _]]].
  destruct (subset_indices_entries _ _ _ Hkin) as [Hlk _].
  assert (Hlen : (5 <= length (fullPars s1))%nat).
  { rewrite Hfp, Heq, length_app. cbn [length]. lia. }
  split; [exact Hlen |].
  destruct (fullPars s1) as [| S [| EA [| m rest]]] eqn:Hf;
    try (cbn in Hlen; lia).
  exists S, EA, m, rest. split; [reflexivity |].
  intros y d Hyd.
  destruct (obs_likelihood_on_run y d S EA m rest Hyd) as [h' [Hrun' _]].
  rewrite Hrun'. reflexivity.
Qed.

Lemma scoring_has_parameters_witness :
  (5 <= length (fullPars
                  (mkLocals [[0 + 4 + 4; 0 + 4 + 4; 0 + 4 + 4]]%R
                     [4 / 5; 3 / 20; 8; 0; 1; 1; 0]%R (Fin 0) 0 0 [])))%nat /\
  exists (S EA m : R) (rest : list R),
    fullPars (mkLocals [[0 + 4 + 4; 0 + 4 + 4; 0 + 4 + 4]]%R
                [4 / 5; 3 / 20; 8; 0; 1; 1; 0]%R (Fin 0) 0 0 [])
    = S :: EA :: m :: rest /\
    forall y d : list R,
      (length y <= length d)%nat ->
      returned
        (obs_likelihood_on y d
           (fullPars (mkLocals [[0 + 4 + 4; 0 + 4 + 4; 0 + 4 + 4]]%R
                        [4 / 5; 3 / 20; 8; 0; 1; 1; 0]%R (Fin 0) 0 0 [])))
      = Some (xsum (log_terms S EA (double_to_int m) y d)).
Proof.
  apply (scoring_has_parameters (constant_solver 4) two_exposures 0 0
           [5; 6] (initial_locals two_exposures)).
  - reflexivity.
  - reflexivity.
Defined.

(** ** The scoring loop *)

(** The number of individuals a (group, strain) pair scores is not
    [individuals[i]]: the scoring loop of the pair of group [i] and strain
    index [j] scores nobody when [individuals[i] <= j] and, when
    [j < individuals[i]], scores the pair's results row against every data
    row from the cursor to the end of the data matrix, then fails on the row
    after the last. *)
Theorem scoring_all_or_nothing
  (a : arguments) (i j n jj : Z) (s : locals) (y : list R) (S EA m : R)
  (rest : list R) (d0 : nat) :
  unchecked (individuals a) i = Ok n ->
  checked (results s) (index_model s) = Ok y ->
  fullPars s = S :: EA :: m :: rest ->
  index_data s = Z.of_nat d0 ->
  (d0 <= length (data a))%nat ->
  (forall row, In row (skipn d0 (data a)) -> (length y <= length row)%nat) ->
  (n <= j ->
   forall fuel : nat, scoring_loop a (Datatypes.S fuel) i j jj s = Done s)
  /\ (j < n ->
      forall fuel : nat,
        (length (data a) - d0 < fuel)%nat ->
        exists s' : locals,
          scoring_loop a fuel i j jj s = Stop IndexOutOfBounds s'
          /\ scored s'
             = scored s
               ++ map (fun r => (index_model s, Z.of_nat r))
                      (seq d0 (length (data a) - d0))
          /\ index_data s' = Z.of_nat (length (data a))
          /\ results s' = results s).
Proof.
  intros Hn Hy Hfp Hd Hd0 Hrows. split.
  - intros Hle fuel. cbn [scoring_loop]. rewrite Hn.
    destruct (Z.ltb_spec j n); [lia | reflexivity].
  - intros Hlt fuel Hfuel.
    destruct s as [res fp acc dat im tr].
    cbn [results index_model fullPars index_data scored] in *.
    subst fp dat.
    rewrite (scoring_loop_exhausts a i j n y S EA m rest
               (length (data a) - d0) Hn Hlt fuel d0 jj res acc im tr);
      try assumption; try lia.
    eexists. split; [reflexivity |]. repeat split.
Qed.

Lemma scoring_all_or_nothing_witness :
  (2 <= 0 ->
   forall fuel : nat,
     scoring_loop two_groups (Datatypes.S fuel) 0 0 0
       (mkLocals [[0 + 4; 0 + 4; 0 + 4]; [0; 0; 0]]%R
          [4 / 5; 3 / 20; 8; 0; 1; 1; 0]%R (Fin 0) 0 0 [])
     = Done (mkLocals [[0 + 4; 0 + 4; 0 + 4]; [0; 0; 0]]%R
               [4 / 5; 3 / 20; 8; 0; 1; 1; 0]%R (Fin 0) 0 0 []))
  /\ (0 < 2 ->
      forall fuel : nat,
        (length (data two_groups) - 0 < fuel)%nat ->
        exists s' : locals,
          scoring_loop two_groups fuel 0 0 0
            (mkLocals [[0 + 4; 0 + 4; 0 + 4]; [0; 0; 0]]%R
               [4 / 5; 3 / 20; 8; 0; 1; 1; 0]%R (Fin 0) 0 0 [])
          = Stop IndexOutOfBounds s'
          /\ scored s'
             = []
               ++ map (fun r => (0, Z.of_nat r))
                      (seq 0 (length (data two_groups) - 0))
          /\ index_data s' = Z.of_nat (length (data two_groups))
          /\ results s' = [[0 + 4; 0 + 4; 0 + 4]; [0; 0; 0]]%R).
Proof.
  apply (scoring_all_or_nothing two_groups 0 0 2 0
           (mkLocals [[0 + 4; 0 + 4; 0 + 4]; [0; 0; 0]]%R
              [4 / 5; 3 / 20; 8; 0; 1; 1; 0]%R (Fin 0) 0 0 [])
           [0 + 4; 0 + 4; 0 + 4]%R (4 / 5) (3 / 20) 8 [0; 1; 1; 0]%R 0%nat).
  - reflexivity.
  - reflexivity.
  - reflexivity.
  - reflexivity.
  - simpl. lia.
  - intros row [<- | [<- | [<- | []]]]; simpl; lia.
Defined.

(** ** The results matrix *)


Lemma foldM_final {A St : Type} (P : St -> Prop)
  (f : A -> St -> outcome St) (l : list A) :
  (forall x t, P t -> P (final (f x t))) ->
  forall s, P s -> P (final (foldM f l s)).
Proof.
  intros Hstep. induction l as [| x l IH]; intros s Hs; cbn [foldM].
  - exact Hs.
  - specialize (Hstep x s Hs).
    destruct (f x s) as [t | e t]; cbn [final] in Hstep |- *;
      [apply IH; exact Hstep | exact Hstep].
Qed.

Lemma add_trajectory_other_rows (m m' : NumericMatrix) (row : Z)
  (y : list R) (r : nat) :
  add_trajectory m row y = Ok m' -> Z.of_nat r <> row ->
  nth_error m' r = nth_error m r.
Proof.
  unfold add_trajectory, unchecked, elem. intros H Hr.
  destruct (Z.ltb_spec row 0) as [Hneg | Hpos]; [discriminate |].
  destruct (nth_error m (Z.to_nat row)) as [r0 |]; [| discriminate].
  cbn [rbind] in H.
  destruct (length y <=? length r0)%nat; [| discriminate].
  injection H as <-. apply set_nth_other. lia.
Qed.

(** The loop over the exposures of a (group, strain) pair writes to the
    pair's own row only: however the loop ends, every other row of the
    results matrix holds what it held, and the matrix has as many rows. *)
Theorem exposures_touch_one_row
  (solver : NumericVector -> NumericVector -> NumericVector) (a : arguments)
  (strain : Z) (tmp : list Z) (s : locals) :
  index_model (final (foldM (exposure_step solver a strain) tmp s))
  = index_model s
  /\ length (results (final (foldM (exposure_step solver a strain) tmp s)))
     = length (results s)
  /\ forall r : nat,
       Z.of_nat r <> index_model s ->
       nth_error
         (results (final (foldM (exposure_step solver a strain) tmp s))) r
       = nth_error (results s) r.
Proof.
  apply (foldM_final
           (fun t => index_model t = index_model s /\
                     length (results t) = length (results s) /\
                     forall r : nat,
                       Z.of_nat r <> index_model s ->
                       nth_error (results t) r = nth_error (results s) r));
    [| repeat split].
  intros e t [Hm [Hl Hrows]].
  destruct (exposure_step solver a strain e t) as [t' | err t'] eqn:Hstep;
    cbn [final].
  - destruct (exposure_step_done solver a strain e t t' Hstep)
      as [fp [_ [Hadd [_ [_ [_ [Hm' _]]]]]]].
    split; [congruence |]. split.
    + rewrite <- Hl.
      unfold add_trajectory in Hadd.
      apply rbind_ok in Hadd as [r0 [_ Hadd]].
      destruct (length _ <=? length r0)%nat; [| discriminate].
      injection Hadd as <-. apply set_nth_length.
    + intros r Hr. rewrite <- (Hrows r Hr).
      apply (add_trajectory_other_rows _ _ _ _ _ Hadd). congruence.
  - unfold exposure_step in Hstep.
    destruct (assemble_fullPars a strain e);
      [| injection Hstep as _ <-; repeat split; assumption].
    destruct (add_trajectory _ _ _);
      [discriminate | injection Hstep as _ <-; repeat split; assumption].
Qed.

Lemma mapM_permutation {A B : Type} (f : A -> result B) (l l' : list A) :
  Permutation l l' ->
  forall ys, mapM f l = Ok ys ->
  exists ys', mapM f l' = Ok ys' /\ Permutation ys ys'.
Proof.
  induction 1 as [| x l l' Hp IH | x z l | l l' l'' Hp1 IH1 Hp2 IH2];
    intros ys H.
  - exists ys. split; [exact H | apply Permutation_refl].
  - cbn [mapM] in H |- *.
    apply rbind_ok in H as [b [Hb H]].
    apply rbind_ok in H as [bs [Hbs H]]. injection H as <-.
    destruct (IH bs Hbs) as [bs' [Hbs' Hperm]].
    exists (b :: bs'). rewrite Hb, Hbs'. cbn [rbind].
    split; [reflexivity | apply perm_skip, Hperm].
  - cbn [mapM] in H |- *.
    apply rbind_ok in H as [b1 [Hb1 H]].
    apply rbind_ok in H as [bs1 [H1 H]]. injection H as <-.
    apply rbind_ok in H1 as [b2 [Hb2 H1]].
    apply rbind_ok in H1 as [bs [Hbs H1]]. injection H1 as <-.
    exists (b2 :: b1 :: bs). rewrite Hb2, Hb1, Hbs. cbn [rbind].
    split; [reflexivity | apply perm_swap].
  - destruct (IH1 ys H) as [ys1 [H1 Hq1]].
    destruct (IH2 ys1 H1) as [ys2 [H2 Hq2]].
    exists ys2. split; [exact H2 | apply (Permutation_trans Hq1 Hq2)].
Qed.

Lemma Rsum_permutation (l l' : list R) :
  Permutation l l' -> Rsum l = Rsum l'.
Proof.
  induction 1 as [| x l l' Hp IH | x z l | l l' l'' Hp1 IH1 Hp2 IH2];
    cbn [Rsum fold_right] in *; unfold Rsum in *; cbn [fold_right];
    try lra.
Qed.

(** Superposition does not depend on the order of the exposures: two
    orders of the same exposures of a group leave the same values in the
    pair's results row (in exact arithmetic).  What differs is [fullPars],
    which is the vector of the exposure processed last. *)
Theorem results_row_order_independent
  (solver : NumericVector -> NumericVector -> NumericVector) (a : arguments)
  (strain : Z) (m : nat) (tmp tmp' : list Z) (s s1 s2 : locals)
  (r0 : list R) :
  Permutation tmp tmp' ->
  index_model s = Z.of_nat m ->
  nth_error (results s) m = Some r0 ->
  foldM (exposure_step solver a strain) tmp s = Done s1 ->
  foldM (exposure_step solver a strain) tmp' s = Done s2 ->
  nth_error (results s1) m = nth_error (results s2) m.
Proof.
  intros Hperm Hm Hr0 H1 H2.
  destruct (exposures_accumulate solver a strain m tmp s s1 r0 H1 Hm Hr0)
    as [fps1 [row1 [Hf1 [_ [Hrow1 [Hl1 Hsum1]]]]]].
  destruct (exposures_accumulate solver a strain m tmp' s s2 r0 H2 Hm Hr0)
    as [fps2 [row2 [Hf2 [_ [Hrow2 [Hl2 Hsum2]]]]]].
  destruct (mapM_permutation _ _ _ Hperm fps1 Hf1) as [fps' [Hf' Hp]].
  assert (fps' = fps2) by congruence. subst fps'.
  rewrite Hrow1, Hrow2. f_equal.
  apply (nth_ext row1 row2 0%R 0%R); [congruence |].
  intros c _. rewrite Hsum1, Hsum2. f_equal.
  apply Rsum_permutation, Permutation_map, Hp.
Qed.

Lemma results_row_order_independent_witness :
  nth_error
    (results (mkLocals [[0 + 4 + 4; 0 + 4 + 4; 0 + 4 + 4]]%R
                [1 / 2; 3 / 20; 10; 0; 1; 1; 0]%R (Fin 0) 0 0 [])) 0
  = nth_error
      (results (mkLocals [[0 + 4 + 4; 0 + 4 + 4; 0 + 4 + 4]]%R
                  [4 / 5; 3 / 20; 10; 0; 1; 1; 0]%R (Fin 0) 0 0 [])) 0.
Proof.
  apply (results_row_order_independent (constant_solver 4) (mixed_types 1 2)
           0 0%nat [8; 9] [9; 8] (initial_locals (mixed_types 1 2))
           _ _ [0; 0; 0]%R).
  - apply perm_swap.
  - reflexivity.
  - reflexivity.
  - reflexivity.
  - reflexivity.
Defined.

(** ** Surplus observations *)

Lemma log_terms_surplus (S EA : R) (M : Z) (y d extra : list R) :
  (length y <= length d)%nat ->
  log_terms S EA M y (d ++ extra) = log_terms S EA M y d.
Proof.
  revert d. induction y as [| b y IH]; intros d Hlen; [reflexivity |].
  destruct d as [| o d]; [cbn in Hlen; lia |].
  cbn [app log_terms]. rewrite IH by (cbn in Hlen; lia). reflexivity.
Qed.

(** The loop runs over the believed vector: observations beyond its length
    are never read, and a longer observed vector gives the same value. *)
Theorem obs_likelihood_ignores_surplus
  (y d extra : list R) (S EA m : R) (rest : list R) :
  (length y <= length d)%nat ->
  returned (obs_likelihood_on y (d ++ extra) (S :: EA :: m :: rest))
  = returned (obs_likelihood_on y d (S :: EA :: m :: rest))
  /\ returned (obs_likelihood_on y d (S :: EA :: m :: rest))
     = Some (xsum (log_terms S EA (double_to_int m) y d)).
Proof.
  intros Hlen.
  destruct (obs_likelihood_on_run y d S EA m rest Hlen) as [h1 [H1 _]].
  destruct (obs_likelihood_on_run y (d ++ extra) S EA m rest)
    as [h2 [H2 _]]; [rewrite length_app; lia |].
  rewrite H1, H2. cbn [returned].
  rewrite log_terms_surplus by exact Hlen. split; reflexivity.
Qed.

Lemma obs_likelihood_ignores_surplus_witness :
  returned (obs_likelihood_on [4; 4]%R ([4; 5] ++ [7; 7; 7])%R
              [4 / 5; 3 / 20; 8]%R)
  = returned (obs_likelihood_on [4; 4]%R [4; 5]%R [4 / 5; 3 / 20; 8]%R)
  /\ returned (obs_likelihood_on [4; 4]%R [4; 5]%R [4 / 5; 3 / 20; 8]%R)
     = Some (xsum (log_terms (4 / 5) (3 / 20) (double_to_int 8)
                     [4; 4]%R [4; 5]%R)).
Proof.
  apply (obs_likelihood_ignores_surplus [4; 4]%R [4; 5]%R [7; 7; 7]%R
           (4 / 5) (3 / 20) 8 []).
  simpl. lia.
Defined.

(** ** Calls after which the believed vector is not as C10 says *)

(** C10, as the claim states it ("after any call"), fails in four ways.
    - One vector passed as the believed and as the observed titres: the call
      returns, and the observed-data vector [-3, 9, 2] has become
      [0, 5, 2].
    - An observed vector shorter than the believed one (here empty): the
      call throws at position 0, and the element at position 1, which was
      below 0, still holds -1.
    - A parameter vector without a third entry: the call throws before the
      loop, and the element that was below 0 still holds -1.
    - A negative [MAX_TITRE] (here -1): the element that was -5, below 0, is
      set to 0 by line 40 and then to [MAX_TITRE] by line 41; it holds -1,
      not 0. *)
Lemma obs_likelihood_leaves_claimed_state_unmet :
  (exists (h' : store) (v : xdouble),
     obs_likelihood 0%nat 0%nat 2%nat
       (fresh_store [-3; 9; 2]%R [] [4 / 5; 3 / 20; 5]%R)
     = Done (h', v)
     /\ fresh_store [-3; 9; 2]%R [] [4 / 5; 3 / 20; 5]%R 0%nat
        = [-3; 9; 2]%R
     /\ h' 0%nat = [0; 5; 2]%R
     /\ [0; 5; 2]%R <> [-3; 9; 2]%R)
  /\ (exists (h' : store) (v : xdouble),
        obs_likelihood 0%nat 1%nat 2%nat
          (fresh_store [-1; -1]%R [] [4 / 5; 3 / 20; 5]%R)
        = Stop IndexOutOfBounds (h', v)
        /\ h' 0%nat = [0; -1]%R
        /\ (-1 < 0)%R /\ (-1)%R <> 0%R)
  /\ (obs_likelihood 0%nat 1%nat 2%nat
        (fresh_store [-1]%R [0]%R [4 / 5; 3 / 20]%R)
      = Stop IndexOutOfBounds
          (fresh_store [-1]%R [0]%R [4 / 5; 3 / 20]%R, Fin 0)
      /\ fresh_store [-1]%R [0]%R [4 / 5; 3 / 20]%R 0%nat = [-1]%R
      /\ (-1 < 0)%R /\ (-1)%R <> 0%R)
  /\ (exists (h' : store) (v : xdouble),
        obs_likelihood 0%nat 1%nat 2%nat
          (fresh_store [-5]%R [0]%R [4 / 5; 3 / 20; -1]%R)
        = Done (h', v)
        /\ double_to_int (-1) = -1
        /\ h' 0%nat = [-1]%R
        /\ (-5 < 0)%R /\ (-1)%R <> 0%R).
Proof.
  assert (H5 : double_to_int 5 = 5) by apply (double_to_int_IZR 5).
  split; [| split; [| split]].
  - set (h := fresh_store [-3; 9; 2]%R [] [4 / 5; 3 / 20; 5]%R).
    assert (Hp : h 2%nat = [4 / 5; 3 / 20; 5]%R) by reflexivity.
    assert (Hc : checked (h 2%nat) 2 = Ok 5%R) by (rewrite Hp; reflexivity).
    destruct (obs_likelihood_loop_shared 0%nat 2%nat (double_to_int 5)
                (4 / 5) (3 / 20) [5]%R [-3; 9; 2]%R ltac:(discriminate) []
                h (Fin 0) eq_refl Hp) as [h' [Hrun [Hv _]]].
    exists h'. eexists. split; [| split; [reflexivity | split]].
    + unfold obs_likelihood. rewrite Hc. cbv zeta. exact Hrun.
    + rewrite Hv, H5. cbn [app map].
      rewrite (clamp_below 5 (-3)), (clamp_above 5 9), (clamp_inside 5 2);
        try lia; try lra. reflexivity.
    + intros H. injection H as H _. lra.
  - set (h := fresh_store [-1; -1]%R [] [4 / 5; 3 / 20; 5]%R).
    assert (Hp : h 2%nat = [4 / 5; 3 / 20; 5]%R) by reflexivity.
    assert (Hc : checked (h 2%nat) 2 = Ok 5%R) by (rewrite Hp; reflexivity).
    destruct (obs_likelihood_body_throws 0%nat 1%nat 2%nat
                (double_to_int 5) h (Fin 0) [] [-1]%R (-1)
                ltac:(discriminate) eq_refl eq_refl)
      as [h' [Hthrow [Hy _]]].
    exists h', (Fin 0). split; [| split; [| split; lra]].
    + unfold obs_likelihood. rewrite Hc. cbv zeta.
      change (zseq (length (h 0%nat))) with [0; 1].
      cbn [foldM]. cbn [length Z.of_nat] in Hthrow. rewrite Hthrow.
      reflexivity.
    + rewrite Hy, H5. cbn [app].
      rewrite (clamp_below 5 (-1)); try lia; try lra. reflexivity.
  - split; [reflexivity |]. split; [reflexivity |]. split; lra.
  - assert (Hm : double_to_int (-1) = -1) by apply (double_to_int_IZR (-1)).
    destruct (obs_likelihood_run 0%nat 1%nat 2%nat
                (fresh_store [-5]%R [0]%R [4 / 5; 3 / 20; -1]%R)
                (4 / 5) (3 / 20) (-1) []) as [h' [Hrun [Hy _]]].
    + discriminate.
    + discriminate.
    + simpl. lia.
    + reflexivity.
    + exists h'. eexists. split; [exact Hrun |]. split; [exact Hm |].
      split; [| split; lra].
      rewrite Hy, Hm. cbn [fresh_store map]. f_equal. unfold clamp.
      destruct (Rlt_dec (-5) 0) as [H1 | H1]; [| lra].
      destruct (Rge_dec 0 (IZR (-1))) as [H2 | H2]; [reflexivity | lra].
Qed.
